(** * NanoPyx: temporal correlations and sub-pixel peak location

    A shallow embedding of
      - [nanopyx/core/transform/sr_temporal_correlations.py],
      - [enanoscopy/methods/image/drift/estimate_shift.py] and
      - the method [estimate] of
        [enanoscopy/methods/channel_alignment/channel_alignment_estimator.py]
    together with the properties their specification states about them
    and further properties that the code shows.

    Conventions of the embedding.
      - A numpy array is its shape and its flat, row-major buffer.
      - The element type of the arrays (float32 in the source) is a
        parameter [F] with the numpy operations the code applies to it
        ([Dtype]); nothing is assumed about these operations except where
        a theorem names the laws it uses ([DtypeLaws]).  Exact rational
        arithmetic ([Qc]) is the instance used for concrete runs.
      - Python [int]s are [Z]; Python [float]s that the code keeps outside
        an array (the halved time-point count) are exact rationals.
      - Arrays that the code can assign into live in a heap, and a name
        bound to an array is a location: [np.array(im)] and [im.copy()]
        allocate, [im[t] = v] writes through the location.
      - The caller's stack holds elements of [F] already, so that the
        cast of [np.array(im, dtype='float32')] is the identity and the
        call is a copy.
      - A computation is a function from machine states to an outcome and
        a machine state; an outcome is a value, a raised Python exception,
        or the exhaustion of the fuel that bounds the [while] loops.
      - scipy's [interp2d], [griddata] and [minimize] are parameters of
        the embedding of the peak locator; the code that the channel
        alignment calls outside its file is a parameter of the embedding
        of the estimator. *)

From Stdlib Require Import ZArith QArith Qcanon Qround Lqa Lia.
From stdpp Require Import base numbers list strings.

Local Open Scope Z_scope.

(** ** Python exceptions and outcomes *)

Inductive exn : Type :=
  | AssertionError
  | ValueError (msg : string)
  | IndexError
  | ZeroDivisionError
  | AxisError
  | NameError.

Inductive outcome (A : Type) : Type :=
  | Return (a : A)
  | Raise (e : exn)
  | Diverge.
Arguments Return {A} a.
Arguments Raise {A} e.
Arguments Diverge {A}.

(** The message of the only [raise] statement of the two files. *)
Definition unknown_kind_msg : string :=
  "Type of correlation must be AVG, VAR or TAC2".

(** Messages of the errors numpy raises by itself. *)
Definition unpack_msg : string := "wrong number of values to unpack".
Definition broadcast_msg : string := "could not broadcast input array".
Definition empty_max_msg : string :=
  "zero-size array to reduction operation maximum which has no identity".

(** ** Element types *)

Class Dtype (F : Type) : Type := {
  f_zero : F;
  f_of_Qc : Qc → F;            (* a Python scalar cast to the dtype *)
  f_add : F → F → F;
  f_sub : F → F → F;
  f_mul : F → F → F;
  f_div : F → F → F;
  f_maximum : F → F → F;       (* np.maximum *)
  f_absolute : F → F;          (* np.absolute *)
  f_neg : F → F;               (* unary minus *)
  f_truthy : F → bool;         (* truth value of an element, for np.any *)
  f_ltb : F → F → bool         (* x < y *)
}.

Definition f_of_Z `{Dtype F} (z : Z) : F := f_of_Qc (Qc_of_Z z).

(** What the theorems below use of the arithmetic: the magnitude of zero
    is zero, zero divided by a positive count is zero, products and
    differences of zeros are zero, clipping a negative value at zero gives
    zero, and zero is falsy. *)
Class DtypeLaws (F : Type) `{Dtype F} : Prop := {
  f_absolute_zero : f_absolute f_zero = f_zero;
  f_div_zero_pos : ∀ n : Z, 0 < n → f_div f_zero (f_of_Z n) = f_zero;
  f_mul_zero : f_mul f_zero f_zero = f_zero;
  f_sub_zero : f_sub f_zero f_zero = f_zero;
  f_maximum_neg : ∀ x, f_ltb x (f_of_Z 0) = true → f_maximum x (f_of_Z 0) = f_zero;
  f_truthy_zero : f_truthy f_zero = false
}.

(** Exact rational arithmetic. *)
#[export] Instance Qc_dtype : Dtype Qc := {
  f_zero := 0%Qc;
  f_of_Qc := λ q, q;
  f_add := Qcplus;
  f_sub := Qcminus;
  f_mul := Qcmult;
  f_div := Qcdiv;
  f_maximum := λ x y, if decide (x < y)%Qc then y else x;
  f_absolute := λ x, if decide (x < 0)%Qc then (- x)%Qc else x;
  f_neg := Qcopp;
  f_truthy := λ x, if decide (x = 0%Qc) then false else true;
  f_ltb := λ x y, if decide (x < y)%Qc then true else false
}.

(** ** Arrays *)

Section Arrays.
Context {F : Type} `{Dtype F}.

Record ndarray : Type := NdArray { shape : list nat; data : list F }.

Definition size_of (sh : list nat) : nat := foldr Nat.mul 1%nat sh.

(** The invariant of every numpy array. *)
Definition wf (a : ndarray) : Prop := length (data a) = size_of (shape a).

Definition ndim (a : ndarray) : nat := length (shape a).

Definition np_zeros (sh : list nat) : ndarray :=
  NdArray sh (replicate (size_of sh) f_zero).

(** Elementwise operations.  Every binary operation of the source is
    applied to two frames of one stack, to accumulators created with the
    frame's shape, or to an array and a scalar, so the operands of
    [ew2] always have one shape. *)
Definition ew1 (f : F → F) (a : ndarray) : ndarray :=
  NdArray (shape a) (f <$> data a).

Definition ew2 (f : F → F → F) (a b : ndarray) : ndarray :=
  NdArray (shape a) (zip_with f (data a) (data b)).

(** Axis 0. *)
Definition len0 (a : ndarray) : nat := hd 0%nat (shape a).
Definition frame_size (a : ndarray) : nat := size_of (tail (shape a)).

Definition frame (a : ndarray) (k : nat) : ndarray :=
  NdArray (tail (shape a))
          (take (frame_size a) (drop (k * frame_size a) (data a))).

Definition frames (a : ndarray) : list ndarray :=
  frame a <$> seq 0 (len0 a).

(** Python's index normalisation on an axis of length [n]. *)
Definition py_index (n : nat) (i : Z) : option nat :=
  if decide (0 ≤ i < Z.of_nat n) then Some (Z.to_nat i)
  else if decide (- Z.of_nat n ≤ i < 0) then Some (Z.to_nat (i + Z.of_nat n))
  else None.

(** [a[i]] *)
Definition getitem (a : ndarray) (i : Z) : outcome ndarray :=
  match shape a with
  | [] => Raise IndexError
  | n :: _ =>
      match py_index n i with
      | Some k => Return (frame a k)
      | None => Raise IndexError
      end
  end.

(** [a[i] = v], on the value of [a]. *)
Definition setitem (a : ndarray) (i : Z) (v : ndarray) : outcome ndarray :=
  match shape a with
  | [] => Raise IndexError
  | n :: sh =>
      match py_index n i with
      | Some k =>
          if decide (shape v = sh) then
            Return (NdArray (shape a)
                      (take (k * frame_size a) (data a) ++ data v
                         ++ drop (S k * frame_size a) (data a)))
          else Raise (ValueError broadcast_msg)
      | None => Raise IndexError
      end
  end.

(** [a[:-1]] and [a[1:]] *)
Definition slice_init (a : ndarray) : ndarray :=
  match shape a with
  | [] => a
  | n :: sh => NdArray (pred n :: sh) (take (pred n * size_of sh) (data a))
  end.

Definition slice_tail (a : ndarray) : ndarray :=
  match shape a with
  | [] => a
  | n :: sh => NdArray (pred n :: sh) (drop (size_of sh) (data a))
  end.

(** [a - m] where [m] has the shape of a frame of [a]. *)
Definition sub_frames (a m : ndarray) : ndarray :=
  NdArray (shape a) (concat ((λ f, data (ew2 f_sub f m)) <$> frames a)).

(** Reductions along axis 0: numpy starts from the first frame. *)
Definition reduce0 (f : F → F → F) (a : ndarray) : ndarray :=
  match frames a with
  | [] => np_zeros (tail (shape a))
  | f0 :: fs => foldl (ew2 f) f0 fs
  end.

Definition np_sum0 (a : ndarray) : ndarray := reduce0 f_add a.

(** [np.mean(a, axis=0)]: the sum over the count. *)
Definition mean_of (a : ndarray) : ndarray :=
  ew1 (λ x, f_div x (f_of_Z (Z.of_nat (len0 a)))) (np_sum0 a).

Definition np_mean0 (a : ndarray) : outcome ndarray :=
  match shape a with
  | [] => Raise AxisError
  | _ :: _ => Return (mean_of a)
  end.

(** [np.amax(a, axis=0)] *)
Definition np_amax0 (a : ndarray) : outcome ndarray :=
  match shape a with
  | [] => Raise AxisError
  | n :: sh =>
      if decide (n = 0%nat)
      then Raise (ValueError empty_max_msg)
      else Return (reduce0 f_maximum a)
  end.

(** [np.var(a, axis=0)]: the mean of the squared deviations. *)
Definition np_var0 (a : ndarray) : outcome ndarray :=
  match np_mean0 a with
  | Return m => let x := sub_frames a m in np_mean0 (ew2 f_mul x x)
  | Raise e => Raise e
  | Diverge => Diverge
  end.

(** [np.any(a)] *)
Definition np_any (a : ndarray) : bool := existsb f_truthy (data a).

(** [np.maximum(a, 0)] *)
Definition clip0 (a : ndarray) : ndarray :=
  ew1 (λ x, f_maximum x (f_of_Z 0)) a.

(** [n, h, w = a.shape] *)
Definition unpack3 (a : ndarray) : outcome (nat * nat * nat) :=
  match shape a with
  | [n; h; w] => Return (n, h, w)
  | _ => Raise (ValueError unpack_msg)
  end.

End Arrays.
Arguments ndarray F : clear implicits.

(** ** Python values that a result can be *)

Inductive pyval (F : Type) : Type :=
  | PyInt (z : Z)
  | PyFloat (q : Qc)
  | PyArr (a : ndarray F).
Arguments PyInt {F} z.
Arguments PyFloat {F} q.
Arguments PyArr {F} a.

(** ** Computations *)

Definition M (St A : Type) : Type := St → outcome A * St.

#[export] Instance M_ret {St} : MRet (M St) := λ A a s, (Return a, s).

#[export] Instance M_bind {St} : MBind (M St) := λ A B k m s,
  match m s with
  | (Return a, s') => k a s'
  | (Raise e, s') => (Raise e, s')
  | (Diverge, s') => (Diverge, s')
  end.

Definition lift {St A} (o : outcome A) : M St A := λ s, (o, s).
Definition raise {St A} (e : exn) : M St A := lift (Raise e).
Definition diverge {St A} : M St A := lift Diverge.
Definition run {St A} (m : M St A) (s : St) : outcome A * St := m s.

(** ** The machine of the correlation engine: a heap of arrays and a
    count of loop iterations *)

Definition loc : Type := nat.

Section Machine.
Context {F : Type}.

Record machine : Type := Machine {
  heap : list (ndarray F);
  iters : nat               (* executions of a [while] body so far *)
}.

Local Abbreviation M := (M machine).

(** A fresh array object. *)
Definition alloc (a : ndarray F) : M loc := λ s,
  (Return (length (heap s)), Machine (heap s ++ [a]) (iters s)).

(** In the source a name always refers to an object; a location that
    is not allocated is an unbound name. *)
Definition load (l : loc) : M (ndarray F) := λ s,
  match heap s !! l with
  | Some a => (Return a, s)
  | None => (Raise NameError, s)
  end.

Definition store (l : loc) (a : ndarray F) : M () := λ s,
  match heap s !! l with
  | Some _ => (Return (), Machine (<[l := a]> (heap s)) (iters s))
  | None => (Raise NameError, s)
  end.

Definition tick : M () := λ s, (Return (), Machine (heap s) (S (iters s))).

(** [np.array(im, dtype='float32')] and [im.copy()]: a new object with
    the same contents. *)
Definition np_array (im : loc) : M loc := a ← load im; alloc a.
Definition copy (im : loc) : M loc := a ← load im; alloc a.

(** [im[i]], read through the name. *)
Definition at_ (im : loc) (i : Z) : M (ndarray F) :=
  a ← load im; lift (getitem a i).

(** [im[i] = v], written through the name. *)
Definition assign (im : loc) (i : Z) (v : ndarray F) : M () :=
  a ← load im; a' ← lift (setitem a i v); store im a'.

(** [while cond: body], each execution of the body counted. *)
Fixpoint while {S : Type} (fuel : nat) (cond : S → bool) (body : S → M S)
    (s : S) : M S :=
  if cond s then
    match fuel with
    | O => diverge
    | S fuel' => tick;; s' ← body s; while fuel' cond body s'
    end
  else mret s.

(** [range(a, b)] and [for x in xs: body]. *)
Definition range2 (a b : Z) : list Z :=
  (λ k : nat, a + Z.of_nat k) <$> seq 0 (Z.to_nat (b - a)).
Definition range (n : Z) : list Z := range2 0 n.

Fixpoint for_ {S : Type} (xs : list Z) (body : S → Z → M S) (s : S) : M S :=
  match xs with
  | [] => mret s
  | x :: xs' => s' ← body s x; for_ xs' body s'
  end.

End Machine.
Arguments machine F : clear implicits.

(** ** sr_temporal_correlations.py *)

Section Engine.
Context {F : Type} `{Dtype F}.

Local Abbreviation ndarray := (ndarray F).
Local Abbreviation M := (M (machine F)).

(** Arithmetic between a Python value and an array or a Python integer,
    as numpy and Python resolve it. *)
Definition py_iadd (p : pyval F) (a : ndarray) : pyval F :=
  match p with
  | PyInt z => PyArr (ew1 (f_add (f_of_Z z)) a)
  | PyFloat q => PyArr (ew1 (f_add (f_of_Qc q)) a)
  | PyArr b => PyArr (ew2 f_add b a)
  end.

Definition py_div_int (p : pyval F) (n : Z) : outcome (pyval F) :=
  match p with
  | PyInt z =>
      if decide (n = 0) then Raise ZeroDivisionError
      else Return (PyFloat (Qc_of_Z z / Qc_of_Z n)%Qc)
  | PyFloat q =>
      if decide (n = 0) then Raise ZeroDivisionError
      else Return (PyFloat (q / Qc_of_Z n)%Qc)
  | PyArr a => Return (PyArr (ew1 (λ x, f_div x (f_of_Z n)) a))
  end.

(** *** calculate_pairwise_product_sum *)

Record pps_vars : Type := PpsVars { pps : pyval F; counter : Z }.

Definition calculate_pairwise_product_sum (rad_array : loc) : M (pyval F) :=
  a ← load rad_array;
  '(n_time_points, height_m, width_m) ← lift (unpack3 a);
  let n_time_points := Z.of_nat n_time_points in
  let out_array := np_zeros [height_m; width_m] in
  v ← for_ (range n_time_points) (λ v t0,
         r0 ← at_ rad_array t0;
         let r0 := clip0 r0 in
         if Z.b2z (np_any r0) >? 0 then
           for_ (range2 t0 n_time_points) (λ v t1,
             r1 ← at_ rad_array t1;
             let r1 := clip0 r1 in
             mret (PpsVars (py_iadd (pps v) (ew2 f_mul r0 r1))
                           (counter v + 1))) v
         else mret (PpsVars (pps v) (counter v + (n_time_points - t0))))
       (PpsVars (PyInt 0) 0);
  pps ← lift (py_div_int (pps v) (Z.max (counter v) 1));
  let out_array := pps in
  mret out_array.

(** *** calculate_acrf_ *)

Record accs : Type := Accs {
  abcd : ndarray; abc : ndarray; ab : ndarray; cd : ndarray;
  ac : ndarray; bd : ndarray; ad : ndarray; bc : ndarray
}.

Definition accs_zeros (height_m width_m : nat) : accs :=
  let z := np_zeros [height_m; width_m] in Accs z z z z z z z z.

Definition set_ab (x : ndarray) (c : accs) : accs :=
  Accs (abcd c) (abc c) x (cd c) (ac c) (bd c) (ad c) (bc c).
Definition set_abc (x : ndarray) (c : accs) : accs :=
  Accs (abcd c) x (ab c) (cd c) (ac c) (bd c) (ad c) (bc c).

Local Notation "x +. y" := (ew2 f_add x y) (at level 50, left associativity).
Local Notation "x -. y" := (ew2 f_sub x y) (at level 50, left associativity).
Local Notation "x *. y" := (ew2 f_mul x y) (at level 40, left associativity).

(** The accumulation statements at the head of both loop bodies. *)
Definition accumulate (im : loc) (mean : ndarray) (order t : Z) (c : accs)
    : M accs :=
  x0 ← at_ im t;
  x1 ← at_ im (t + 1);
  let c := set_ab (ab c +. (x0 -. mean) *. (x1 -. mean)) c in
  c ← (if order =? 3 then
         x0 ← at_ im t;
         x1 ← at_ im (t + 1);
         x2 ← at_ im (t + 2);
         mret (set_abc (abc c +. (x0 -. mean) *. (x1 -. mean)
                          +. (x2 -. mean)) c)
       else mret c);
  if order =? 4 then
    x0 ← at_ im t; let a := x0 -. mean in
    x1 ← at_ im (t + 1); let b := x1 -. mean in
    x2 ← at_ im (t + 2); let c2 := x2 -. mean in
    x3 ← at_ im (t + 3); let d := x3 -. mean in
    mret (Accs (abcd c +. a *. b *. c2 *. d)
               (abc c)
               (ab c)
               (cd c +. c2 *. d)
               (ac c +. a *. c2)
               (bd c +. b *. d)
               (ad c +. a *. d)
               (bc c +. b *. c2))
  else mret c.

(** The three closing formulas; [n] is the (binned) time-point count. *)
Definition finish (order : Z) (n : Qc) (c : accs) : ndarray :=
  let over_n := ew1 (λ x, f_div x (f_of_Qc n)) in
  if order =? 3 then over_n (ew1 f_absolute (abc c))
  else if order =? 4 then
    over_n (ew1 f_absolute
              (abcd c -. ab c *. cd c -. ac c *. bd c -. ad c *. bc c))
  else over_n (ew1 f_absolute (ab c)).

Record sliding : Type := Sliding { sl_t : Z; sl_accs : accs }.

Record binned : Type := Binned {
  n_binned_time_points : Qc;
  tbin : Z;
  bn_accs : accs;
  bn_out : ndarray
}.

Record binning : Type := Binning { b_t : Z; b_tbin : Z; b_accs : accs }.

Definition Qc_ltb (x y : Qc) : bool := bool_decide (x < y)%Qc.

Definition calculate_acrf_ (fuel : nat) (rad_array : loc) (order : Z)
    (do_integrate_lag_times : bool) : M (pyval F) :=
  im ← copy rad_array;
  a ← load im;
  '(n_time_points, height_m, width_m) ← lift (unpack3 a);
  let n_time_points := Z.of_nat n_time_points in
  mean ← lift (np_mean0 a);
  let out_array := np_zeros [height_m; width_m] in
  let c := accs_zeros height_m width_m in
  if negb do_integrate_lag_times then
    st ← while fuel (λ st, sl_t st <? n_time_points - order)
           (λ st,
              c ← accumulate im mean order (sl_t st) (sl_accs st);
              mret (Sliding (sl_t st + 1) c))
           (Sliding 0 c);
    mret (PyArr (finish order (Qc_of_Z n_time_points) (sl_accs st)))
  else
    st ← while fuel (λ st, Qc_ltb (Qc_of_Z order) (n_binned_time_points st))
           (λ st,
              let nb := n_binned_time_points st in
              let c := set_ab (np_zeros [height_m; width_m]) (bn_accs st) in
              st' ← while fuel
                      (λ st', Qc_ltb (Qc_of_Z (b_t st')) (nb - Qc_of_Z order))
                      (λ st',
                         let t := b_t st' in
                         let tbin := t * order in
                         c ← accumulate im mean order t (b_accs st');
                         assign im t (np_zeros [height_m; width_m]);;
                         (if Qc_ltb (Qc_of_Z tbin) nb then
                            for_ (range (order - 1)) (λ _ _t,
                              x ← at_ im t;
                              y ← at_ im (tbin + _t);
                              assign im t
                                (x +. ew1 (λ v, f_div v (f_of_Z order)) y))
                              ()
                          else mret ());;
                         mret (Binning (t + 1) tbin c))
                      (Binning 0 (tbin st) c);
              let out_array := finish order nb (b_accs st') in
              if decide (order = 0) then raise ZeroDivisionError
              else mret (Binned (nb / Qc_of_Z order)%Qc (b_tbin st')
                                (b_accs st') out_array))
           (Binned (Qc_of_Z n_time_points) 0 c out_array);
    mret (PyArr (bn_out st)).

(** *** calculate_tac2 *)

Definition calculate_tac2 (rad_array : loc) : M (pyval F) :=
  a ← load rad_array;
  mean ← lift (np_mean0 a);
  let centered := sub_frames a mean in
  out_array ← lift (np_mean0 (slice_init centered *. slice_tail centered));
  mret (PyArr out_array).

(** *** The two entry points *)

Definition calculate_SRRF_temporal_correlations (fuel : nat) (im : loc)
    (order : Z) (do_integrate_lag_times : bool) : M (pyval F) :=
  im ← np_array im;
  a ← load im;
  if negb (bool_decide (ndim a = 3%nat) && (order <=? 4)) then
    raise AssertionError
  else if order =? 0 then
    out_array ← lift (np_amax0 a); mret (PyArr out_array)
  else if order =? 1 then
    out_array ← lift (np_mean0 a); mret (PyArr out_array)
  else if order =? -1 then
    calculate_pairwise_product_sum im
  else
    calculate_acrf_ fuel im order do_integrate_lag_times.

Definition calculate_eSRRF_temporal_correlations (im : loc)
    (correlation : string) : M (pyval F) :=
  im ← np_array im;
  a ← load im;
  if String.eqb correlation "AVG" then
    out_array ← lift (np_mean0 a); mret (PyArr out_array)
  else if String.eqb correlation "VAR" then
    out_array ← lift (np_var0 a); mret (PyArr out_array)
  else if String.eqb correlation "TAC2" then
    calculate_tac2 im
  else
    raise (ValueError unknown_kind_msg).

End Engine.

(** ** estimate_shift.py *)

Module Shift.

(** The class [GetMaxOptimizer] is three calls into scipy around a few
    lines of its own.  scipy is not part of the repository, so
    [interp2d], [griddata] and [minimize] are parameters of the
    embedding: it fixes which of them the class calls, with which
    arguments and how often, and nothing about what they compute.  The
    calls are recorded in a trace. *)
Inductive event : Type :=
  | Interp2dBuilt      (* [interp2d(...)] returned an interpolant *)
  | Interp2dCalled     (* the interpolant was evaluated *)
  | GriddataBuilt      (* [griddata(...)] interpolated the grid anew *)
  | ObjectiveCalled.   (* [minimize] evaluated its objective *)

#[export] Instance event_eq_dec : EqDecision event.
Proof. solve_decision. Defined.

Definition trace : Type := list event.

Definition log (e : event) : M trace () := λ t, (Return (), t ++ [e]).

(** A run of a derivative-free minimiser: it asks for the objective at
    points of its choice and stops with a point, converged or not. *)
Inductive search (X V : Type) : Type :=
  | Stop (x : X) (success : bool)
  | Ask (x : X) (k : V → search X V).
Arguments Stop {X V} x success.
Arguments Ask {X V} x k.

(** [OptimizeResult] *)
Record result (X : Type) : Type := Result { res_x : X; res_success : bool }.
Arguments Result {X} res_x res_success.
Arguments res_x {X} r.
Arguments res_success {X} r.

Section Optimizer.
Context {F : Type} `{Dtype F} {interp : Type}.
Variable interp2d : ndarray F → ndarray F → ndarray F → outcome interp.
Variable interp2d_call : interp → F → F → outcome F.
Variable griddata :
  list (Z * Z) → ndarray F → F * F → string → outcome F.
Variable nelder_mead : F * F → nat → search (F * F) F.

Local Abbreviation M := (M trace).

(** [minimize(fun, x0, method="Nelder-Mead", options={"maxiter": n})] *)
Fixpoint run_search (s : search (F * F) F) (objective : F * F → M F)
    : M (result (F * F)) :=
  match s with
  | Stop x ok => mret (Result x ok)
  | Ask x k => v ← (log ObjectiveCalled;; objective x);
               run_search (k v) objective
  end.

Definition minimize (objective : F * F → M F) (x0 : F * F)
    (maxiter : nat) : M (result (F * F)) :=
  run_search (nelder_mead x0 maxiter) objective.

(** [a.shape[i]] *)
Definition shape_at (a : ndarray F) (i : nat) : outcome nat :=
  match shape a !! i with
  | Some n => Return n
  | None => Raise IndexError
  end.

(** [a.argmax()]: the first index of the largest element. *)
Definition argmax (a : ndarray F) : outcome nat :=
  match data a with
  | [] => Raise (ValueError "attempt to get argmax of an empty sequence")
  | x :: xs =>
      Return (fst (fst (foldl (λ '(i, m, j) y,
                                 if f_ltb m y then (j, y, S j)
                                 else (i, m, S j))
                              (0, x, 1) xs)))%nat
  end.

(** [a.reshape(n)] *)
Definition reshape1 (a : ndarray F) (n : nat) : ndarray F :=
  NdArray [n] (data a).

Record GetMaxOptimizer : Type := Self {
  slice_ccm : ndarray F;
  w : nat;
  h : nat;
  interpolator : interp
}.

Definition init (slice_ccm : ndarray F) : M GetMaxOptimizer :=
  w ← lift (shape_at slice_ccm 1);
  h ← lift (shape_at slice_ccm 0);
  interpolator ←
    lift (interp2d (NdArray [h] (f_of_Z <$> range (Z.of_nat h)))
                   (NdArray [] [f_of_Z (Z.of_nat w)])
                   (reshape1 slice_ccm (h * w)));
  log Interp2dBuilt;;
  mret (Self slice_ccm w h interpolator).

Definition get_interpolated_px_value (self : GetMaxOptimizer)
    (coords : F * F) : M F :=
  h ← lift (shape_at (slice_ccm self) 0);
  w ← lift (shape_at (slice_ccm self) 1);
  let points :=
    y ← range (Z.of_nat h); x ← range (Z.of_nat w); [(y, x)] in
  let values := reshape1 (slice_ccm self) (h * w) in
  v ← lift (griddata points values coords "cubic");
  log GriddataBuilt;;
  mret (f_neg v).

Definition get_interpolated_px_value_optimized (self : GetMaxOptimizer)
    (coords : F * F) : M F :=
  v ← lift (interp2d_call (interpolator self) (fst coords) (snd coords));
  log Interp2dCalled;;
  mret (f_neg v).

Definition get_max (self : GetMaxOptimizer) : M (F * F) :=
  k ← lift (argmax (slice_ccm self));
  w ← lift (shape_at (slice_ccm self) 1);
  let y_max := Z.of_nat k / Z.of_nat w in
  let x_max := Z.of_nat k mod Z.of_nat w in
  minimizer ← minimize (get_interpolated_px_value self)
                (f_of_Z y_max, f_of_Z x_max) 1000;
  mret (res_x minimizer).

(** [GetMaxOptimizer(surface).get_max()] *)
Definition locate_max (surface : ndarray F) : M (F * F) :=
  self ← init surface; get_max self.

End Optimizer.
Arguments GetMaxOptimizer F interp : clear implicits.

End Shift.

(** ** Inputs of the scenarios *)

(** A minimiser that evaluates its objective at the three vertices of a
    first simplex around the start point and stops there; and a
    [griddata] that answers every call. *)
Definition probe3 {F : Type} `{Dtype F} (x0 : F * F) (maxiter : nat)
    : Shift.search (F * F) F :=
  let '(y, x) := x0 in
  Shift.Ask (y, x) (λ _,
    Shift.Ask (f_add y (f_of_Z 1), x) (λ _,
      Shift.Ask (y, f_add x (f_of_Z 1)) (λ _,
        Shift.Stop (y, x) (bool_decide (3 ≤ maxiter)%nat)))).

Definition any_griddata {F : Type} `{Dtype F} (points : list (Z * Z))
    (values : ndarray F) (xi : F * F) (method : string) : outcome F :=
  Return f_zero.


(** The two-frame stack [[A, A + 1]]. *)
Definition pair_stack {F : Type} `{Dtype F} (A : ndarray F) : ndarray F :=
  NdArray (2%nat :: shape A)
          (data A ++ ((λ x, f_add x (f_of_Z 1)) <$> data A)).

(** The product of the centred frames [k] and [k + 1] of a stack. *)
Definition lag1_product {F : Type} `{Dtype F} (a : ndarray F) (k : nat)
    : ndarray F :=
  ew2 f_mul (ew2 f_sub (frame a k) (mean_of a))
            (ew2 f_sub (frame a (S k)) (mean_of a)).

(** Every pixel of every frame is below zero. *)
Definition strictly_negative {F : Type} `{Dtype F} (a : ndarray F) : Prop :=
  Forall (λ x, f_ltb x (f_of_Z 0) = true) (data a).

(** Integer-valued pixels in exact arithmetic. *)
Definition pixels (zs : list Z) : list Qc := Qc_of_Z <$> zs.

(** A machine whose heap holds one array, the caller's. *)
Definition caller {F : Type} (a : ndarray F) : machine F := Machine [a] 0.

(** The locator of the surface [[1, 4], [4, 2]], whose largest pixel
    occurs twice. *)
Definition two_peaks : Shift.GetMaxOptimizer Qc () :=
  Shift.Self (NdArray [2; 2]%nat (pixels [1; 4; 4; 2])) 2%nat 2%nat ().

(** ** Specifications of computations *)

(** From a state in [I] the computation ends in [I]; a returned value is
    in [R], a raised exception in [E], and the fuel runs out only if [D]. *)
Definition triple {St A : Type} (I : St → Prop) (m : M St A)
    (R : A → Prop) (E : exn → Prop) (D : Prop) : Prop :=
  ∀ s, I s →
    match m s with
    | (Return a, s') => I s' ∧ R a
    | (Raise e, s') => I s' ∧ E e
    | (Diverge, s') => I s' ∧ D
    end.

(** The exceptions that Python and numpy raise by themselves, as opposed
    to the two checks written in the source. *)
Definition library_error (e : exn) : Prop :=
  e ≠ AssertionError ∧ e ≠ ValueError unknown_kind_msg.

(** The arrays the caller holds are still there, unchanged. *)
Definition extends {F : Type} (h0 : list (ndarray F)) (s : machine F) : Prop :=
  h0 `prefix_of` heap s.

(** The correlation kinds of the eSRRF family. *)
Definition allowed_kinds : list string := ["AVG"; "VAR"; "TAC2"].

(** ** Further specifications *)

(** The array at the location [im] has the shape [sh]. *)
Definition holds_stack {F : Type} (im : loc) (sh : list nat)
    (s : machine F) : Prop :=
  ∃ a, heap s !! im = Some a ∧ shape a = sh.

(** The accumulators that the closing formulas read have the shape [sh]. *)
Definition accs_shaped {F : Type} (sh : list nat) (c : @accs F) : Prop :=
  shape (ab c) = sh ∧ shape (abc c) = sh ∧ shape (abcd c) = sh.

(** A result that is an array of the shape [sh]. *)
Definition array_of_shape {F : Type} (sh : list nat) (v : pyval F) : Prop :=
  ∃ out, v = PyArr out ∧ shape out = sh.

(** No pixel is below zero. *)
Definition nonnegative (a : ndarray Qc) : Prop :=
  Forall (λ x, (0 ≤ x)%Qc) (data a).

(** The grid of [get_interpolated_px_value]: every (row, column) pair,
    row by row. *)
Definition grid_points (h w : nat) : list (Z * Z) :=
  y ← range (Z.of_nat h); x ← range (Z.of_nat w); [(y, x)].

(** A run of a minimiser in which every success flag is [b]. *)
Fixpoint with_success {X V : Type} (b : bool) (s : Shift.search X V)
    : Shift.search X V :=
  match s with
  | Shift.Stop x _ => Shift.Stop x b
  | Shift.Ask x k => Shift.Ask x (λ v, with_success b (k v))
  end.

(** An [interp2d] that rejects its arguments. *)
Definition strict_interp2d {F : Type} (x y z : ndarray F) : outcome () :=
  Raise (ValueError "x and y must have equal lengths for non rectangular grid").

(** ** channel_alignment_estimator.py *)

Module Align.

(** The method [estimate] of [ChannelAlignmentEstimator] is list and
    array bookkeeping of its own around calls into code that is not in
    this file: the block-wise translation estimate
    ([calculate_translation_mask]), the image writer ([imsave]), the file
    dialog and the corrector that applies the masks.  These are
    parameters of the embedding, as are the two numpy behaviours that
    depend on what they return (broadcasting an assigned value of another
    shape, and [np.array] of a list that is not a list of equally shaped
    arrays).  Every call and the one [print] are recorded in a log.  The
    function has no loop that can run for ever, so an outcome is a value
    or an exception. *)

(** Exceptions: those of the correlation engine and two more. *)
Inductive error : Type :=
  | Py (e : exn)
  | TypeError (msg : string)
  | AttributeError (msg : string).

Inductive res (A : Type) : Type :=
  | Ok (a : A)
  | Err (e : error).
Arguments Ok {A} a.
Arguments Err {A} e.

Definition remove_msg : string := "list.remove(x): x not in list".
Definition guard_msg : string :=
  "Reference channel number cannot be bigger than number of channels!".
Definition unsized_msg : string := "len() of unsized object".
Definition none_item_msg : string := "'NoneType' object is not subscriptable".
Definition none_assign_msg : string :=
  "'NoneType' object does not support item assignment".
Definition no_attribute_msg (type attribute : string) : string :=
  "'" +:+ type +:+ "' object has no attribute '" +:+ attribute +:+ "'".

(** The value of the attribute [ccms]: [None], a Python list of arrays,
    or an array.  The attribute [translation_masks] is [None] or an
    array. *)
Inductive attr (F : Type) : Type :=
  | ANone
  | AList (l : list (ndarray F))
  | AArray (a : ndarray F).
Arguments ANone {F}.
Arguments AList {F} l.
Arguments AArray {F} a.

(** [max_shift, blocks_per_axis, min_similarity, method] *)
Record settings (F : Type) : Type := Settings {
  max_shift : F;
  blocks_per_axis : Z;
  min_similarity : F;
  method : string
}.
Arguments Settings {F} max_shift blocks_per_axis min_similarity method.

Inductive event (F : Type) : Type :=
  | Printed (msg : string)
  | TranslationAsked (channel_to_align ref_channel_img : ndarray F)
                     (cfg : settings F)
  | DialogOpened (title : string)
  | Saved (path : string) (what : attr F)
  | Aligned (img_stack : ndarray F) (masks : option (ndarray F)).
Arguments Printed {F} msg.
Arguments TranslationAsked {F} channel_to_align ref_channel_img cfg.
Arguments DialogOpened {F} title.
Arguments Saved {F} path what.
Arguments Aligned {F} img_stack masks.

(** [self], and what the process has done so far. *)
Record estimator (F : Type) : Type := Estimator {
  translation_masks : option (ndarray F);
  ccms : attr F;
  log : list (event F)
}.
Arguments Estimator {F} translation_masks ccms log.
Arguments translation_masks {F} e.
Arguments ccms {F} e.
Arguments log {F} e.

(** [__init__] *)
Definition init {F : Type} : estimator F := Estimator None ANone [].

Definition Run (F A : Type) : Type := estimator F → res A * estimator F.

#[global] Instance Run_ret {F} : MRet (Run F) := λ A a s, (Ok a, s).

#[global] Instance Run_bind {F} : MBind (Run F) := λ A B k m s,
  match m s with
  | (Ok a, s') => k a s'
  | (Err e, s') => (Err e, s')
  end.

Definition lift {F A} (r : res A) : Run F A := λ s, (r, s).

Definition record {F} (e : event F) : Run F () := λ s,
  (Ok (), Estimator (translation_masks s) (ccms s) (log s ++ [e])).

(** [xs.remove(x)]: the first occurrence goes. *)
Fixpoint remove_first (x : Z) (xs : list Z) : list Z :=
  match xs with
  | [] => []
  | y :: xs' => if decide (x = y) then xs' else y :: remove_first x xs'
  end.

Definition list_remove (x : Z) (xs : list Z) : res (list Z) :=
  if decide (x ∈ xs) then Ok (remove_first x xs)
  else Err (Py (ValueError remove_msg)).

(** [xs.insert(i, x)]: an index outside the list is clamped. *)
Definition list_insert {A} (i : Z) (x : A) (xs : list A) : list A :=
  let n := Z.of_nat (length xs) in
  let k := if decide (i < 0) then Z.max 0 (n + i) else Z.min i n in
  take (Z.to_nat k) xs ++ x :: drop (Z.to_nat k) xs.

Section Estimate.
Context {F : Type} `{Dtype F}.

(** The code outside this file, and numpy where the outcome depends on
    what that code returned. *)
Variable calculate_translation_mask :
  ndarray F → ndarray F → settings F → res (ndarray F * ndarray F).
Variable imsave : string → attr F → res ().
Variable asksaveasfilename : string → res string.
Variable align_channels :
  ndarray F → option (ndarray F) → res (ndarray F).
Variable broadcast_to : ndarray F → list nat → res (ndarray F).
Variable array_of_objects : attr F → res (ndarray F).

Local Abbreviation Run := (Run F).

(** [a.shape[i]] *)
Definition dim (a : ndarray F) (i : nat) : res nat :=
  match shape a !! i with
  | Some n => Ok n
  | None => Err (Py IndexError)
  end.

(** [a[i]] *)
Definition item (a : ndarray F) (i : Z) : res (ndarray F) :=
  match shape a with
  | [] => Err (Py IndexError)
  | n :: _ =>
      match py_index n i with
      | Some k => Ok (frame a k)
      | None => Err (Py IndexError)
      end
  end.

(** [len(a)] *)
Definition py_len (a : ndarray F) : res nat :=
  match shape a with
  | [] => Err (TypeError unsized_msg)
  | n :: _ => Ok n
  end.

(** [np.array(v)]: a list of arrays of one shape is stacked, an array is
    copied. *)
Definition np_array_of (v : attr F) : res (ndarray F) :=
  match v with
  | AArray a => Ok a
  | AList [] => Ok (NdArray [0%nat] [])
  | AList (a :: l) =>
      if decide (Forall (λ b, shape b = shape a) l) then
        Ok (NdArray (S (length l) :: shape a) (concat (data <$> a :: l)))
      else array_of_objects v
  | ANone => array_of_objects v
  end.

(** [self.translation_masks[channel] = translation_mask] *)
Definition assign_mask (channel : Z) (translation_mask : ndarray F)
    : Run () := λ s,
  match translation_masks s with
  | None => (Err (TypeError none_assign_msg), s)
  | Some a =>
      match shape a with
      | [] => (Err (Py IndexError), s)
      | n :: sh =>
          match py_index n channel with
          | None => (Err (Py IndexError), s)
          | Some k =>
              match (if decide (shape translation_mask = sh)
                     then Ok translation_mask
                     else broadcast_to translation_mask sh) with
              | Err e => (Err e, s)
              | Ok v =>
                  (Ok (),
                   Estimator
                     (Some (NdArray (shape a)
                              (take (k * frame_size a) (data a) ++ data v
                                 ++ drop (S k * frame_size a) (data a))))
                     (ccms s) (log s))
              end
          end
      end
  end.

(** [self.ccms.append(ccm)] *)
Definition append_ccm (ccm : ndarray F) : Run () := λ s,
  match ccms s with
  | AList l => (Ok (), Estimator (translation_masks s) (AList (l ++ [ccm]))
                         (log s))
  | ANone => (Err (AttributeError (no_attribute_msg "NoneType" "append")), s)
  | AArray _ =>
      (Err (AttributeError (no_attribute_msg "numpy.ndarray" "append")), s)
  end.

(** [self.ccms.insert(i, x)] *)
Definition insert_ccm (i : Z) (x : ndarray F) : Run () := λ s,
  match ccms s with
  | AList l => (Ok (), Estimator (translation_masks s)
                         (AList (list_insert i x l)) (log s))
  | ANone => (Err (AttributeError (no_attribute_msg "NoneType" "insert")), s)
  | AArray _ =>
      (Err (AttributeError (no_attribute_msg "numpy.ndarray" "insert")), s)
  end.

(** [self.ccms[0]] *)
Definition first_ccm : Run (ndarray F) := λ s,
  match ccms s with
  | ANone => (Err (TypeError none_item_msg), s)
  | AList [] => (Err (Py IndexError), s)
  | AList (a :: _) => (Ok a, s)
  | AArray a => (item a 0, s)
  end.

Definition set_translation_masks (v : option (ndarray F)) : Run () := λ s,
  (Ok (), Estimator v (ccms s) (log s)).

Definition set_ccms (v : attr F) : Run () := λ s,
  (Ok (), Estimator (translation_masks s) v (log s)).

Definition get_translation_masks : Run (option (ndarray F)) := λ s,
  (Ok (translation_masks s), s).

Definition get_ccms : Run (attr F) := λ s, (Ok (ccms s), s).

Fixpoint for_each (xs : list Z) (body : Z → Run ()) : Run () :=
  match xs with
  | [] => mret ()
  | x :: xs' => body x;; for_each xs' body
  end.

Definition apply_elastic_transform (img_stack : ndarray F)
    : Run (ndarray F) :=
  masks ← get_translation_masks;
  record (Aligned img_stack masks);;
  lift (align_channels img_stack masks).

Definition calculate_translation (channel_to_align ref_channel_img : ndarray F)
    (cfg : settings F) : Run (ndarray F * ndarray F) :=
  record (TranslationAsked channel_to_align ref_channel_img cfg);;
  lift (calculate_translation_mask channel_to_align ref_channel_img cfg).

Definition save_path (path : option string) (title : string) : Run string :=
  match path with
  | Some p => mret (p +:+ ".tif")
  | None =>
      record (DialogOpened title);;
      p ← lift (asksaveasfilename title);
      mret (p +:+ ".tif")
  end.

Definition save_translation_mask (path : option string) : Run () :=
  p ← save_path path "Save Translation Masks";
  v ← get_translation_masks;
  let v := from_option AArray ANone v in
  record (Saved p v);;
  lift (imsave p v).

Definition save_ccms (path : option string) : Run () :=
  p ← save_path path "Save Cross Correlation Maps";
  v ← get_ccms;
  record (Saved p v);;
  lift (imsave p v).

Definition estimate (img_stack : ndarray F) (ref_channel : Z)
    (cfg : settings F)
    (save_translation_masks : bool) (translation_mask_save_path : option string)
    (save_ccms_flag : bool) (ccms_save_path : option string)
    (apply : bool) : Run (option (ndarray F)) :=
  n ← lift (dim img_stack 0);
  let channels_to_align := range (Z.of_nat n) in
  channels_to_align ← lift (list_remove ref_channel channels_to_align);
  h ← lift (dim img_stack 1);
  if ref_channel >? Z.of_nat h then
    record (Printed guard_msg);;
    mret None
  else
    n0 ← lift (dim img_stack 0);
    n1 ← lift (dim img_stack 1);
    n2 ← lift (dim img_stack 2);
    set_translation_masks (Some (np_zeros [n0; n1; (n2 * 2)%nat]));;
    set_ccms (AList []);;
    for_each channels_to_align (λ channel,
      x ← lift (item img_stack channel);
      r ← lift (item img_stack ref_channel);
      '(translation_mask, ccm) ← calculate_translation x r cfg;
      assign_mask channel translation_mask;;
      append_ccm ccm);;
    c ← first_ccm;
    rows ← lift (py_len c);
    c ← first_ccm;
    c0 ← lift (item c 0);
    cols ← lift (py_len c0);
    insert_ccm ref_channel (np_zeros [rows; cols]);;
    v ← get_ccms;
    a ← lift (np_array_of v);
    set_ccms (AArray a);;
    (if save_translation_masks
     then save_translation_mask translation_mask_save_path
     else mret ());;
    (if save_ccms_flag then save_ccms ccms_save_path else mret ());;
    if apply then
      out ← apply_elastic_transform img_stack; mret (Some out)
    else mret None.

End Estimate.

End Align.

(** Code outside the file that answers every call, for concrete runs. *)
Definition any_translation {F : Type} (x r : ndarray F)
    (cfg : Align.settings F) : Align.res (ndarray F * ndarray F) :=
  Align.Ok (NdArray (match shape x with
                     | [h; w] => [h; (w * 2)%nat]
                     | sh => sh
                     end) (data x ++ data x), x).
Definition any_imsave {F : Type} (path : string) (what : Align.attr F)
    : Align.res () := Align.Ok ().
Definition any_dialog (title : string) : Align.res string :=
  Align.Ok "masks".
Definition any_corrector {F : Type} (img_stack : ndarray F)
    (masks : option (ndarray F)) : Align.res (ndarray F) :=
  Align.Ok img_stack.
Definition numpy_refuses {F : Type} (v : ndarray F) (sh : list nat)
    : Align.res (ndarray F) := Align.Err (Align.Py (ValueError broadcast_msg)).
Definition no_object_array {F : Type} (v : Align.attr F)
    : Align.res (ndarray F) :=
  Align.Err (Align.Py (ValueError "inhomogeneous shape")).

Definition subpixel : Align.settings Qc :=
  Align.Settings (Qc_of_Z 5) 3 (Qc_of_Z 0) "subpixel".

(** An event other than a call of the translation estimate. *)
Definition quiet {F : Type} (e : Align.event F) : Prop :=
  ∀ x r cfg, e ≠ Align.TranslationAsked x r cfg.

(** A computation that, when it returns, has put only such events in
    the log. *)
Definition adds_quietly {F A : Type} (m : Align.Run F A) : Prop :=
  ∀ s a s', m s = (Align.Ok a, s') →
    ∃ rest, Align.log s' = Align.log s ++ rest ∧ Forall quiet rest.

(** The call that [estimate] makes for the channel [c]. *)
Definition translation_of {F : Type} (img_stack : ndarray F) (ref_channel : Z)
    (cfg : Align.settings F) (c : Z) : Align.event F :=
  Align.TranslationAsked (frame img_stack (Z.to_nat c))
                         (frame img_stack (Z.to_nat ref_channel)) cfg.

(** * Properties *)

(** ** The laws hold in exact arithmetic *)

#[export] Instance Qc_laws : DtypeLaws Qc.
Proof.
  split.
  - reflexivity.
  - intros n Hn. unfold f_div, f_zero, f_of_Z, f_of_Qc; simpl.
    unfold Qcdiv. ring.
  - reflexivity.
  - reflexivity.
  - intros x. unfold f_ltb, f_maximum, f_of_Z, f_of_Qc, f_zero; simpl.
    rewrite Z2Qc_inj_0. destruct (decide (x < 0)%Qc); [reflexivity | discriminate].
  - reflexivity.
Qed.

(** ** Running the primitives *)

Section Run.
Context {F : Type} `{Dtype F}.

Lemma run_bind {A B} (m : M (machine F) A) (k : A → M (machine F) B) (s : machine F) :
  (m ≫= k) s =
    match m s with
    | (Return a, s') => k a s'
    | (Raise e, s') => (Raise e, s')
    | (Diverge, s') => (Diverge, s')
    end.
Proof. reflexivity. Qed.

Lemma bind_lift_return {A B} (a : A) (k : A → M (machine F) B) s :
  (lift (Return a) ≫= k) s = k a s.
Proof. reflexivity. Qed.

Lemma bind_mret {A B} (a : A) (k : A → M (machine F) B) s :
  (mret a ≫= k) s = k a s.
Proof. reflexivity. Qed.

Lemma while_done {S} (fuel : nat) (cond : S → bool) (body : S → M (machine F) S)
    (st : S) :
  cond st = false → while fuel cond body st = mret st.
Proof. intros Hc. destruct fuel; simpl; by rewrite Hc. Qed.

Lemma run_load (l : loc) (a : ndarray F) (s : machine F) :
  heap s !! l = Some a → load l s = (Return a, s).
Proof. intros Hl. unfold load. by rewrite Hl. Qed.

Lemma run_copy (l : loc) (a : ndarray F) (s : machine F) :
  heap s !! l = Some a →
  copy l s = (Return (length (heap s)), Machine (heap s ++ [a]) (iters s)).
Proof. intros Hl. unfold copy. by rewrite run_bind, (run_load _ _ _ Hl). Qed.

Lemma lookup_fresh (h : list (ndarray F)) (a : ndarray F) :
  (h ++ [a]) !! length h = Some a.
Proof. by rewrite lookup_app_r, Nat.sub_diag by lia. Qed.

End Run.

Section NoWindow.
Context {F : Type} `{DtypeLaws F}.

Lemma ew1_zeros (f : F → F) (sh : list nat) :
  f f_zero = f_zero → ew1 f (np_zeros sh) = np_zeros sh.
Proof.
  intros Hf. unfold ew1, np_zeros. simpl. f_equal.
  rewrite fmap_replicate. by rewrite Hf.
Qed.

Lemma ew2_zeros (f : F → F → F) (sh : list nat) :
  f f_zero f_zero = f_zero → ew2 f (np_zeros sh) (np_zeros sh) = np_zeros sh.
Proof.
  intros Hf. unfold ew2, np_zeros. simpl. f_equal.
  rewrite zip_with_replicate. by rewrite Hf.
Qed.

Lemma finish_zeros (order n : Z) (h w : nat) :
  0 < n →
  finish order (Qc_of_Z n) (accs_zeros h w) = np_zeros [h; w].
Proof.
  intros Hn. unfold finish, accs_zeros. simpl.
  assert (Hdiv : f_div f_zero (f_of_Qc (Qc_of_Z n)) = f_zero)
    by exact (f_div_zero_pos n Hn).
  destruct (order =? 3); [| destruct (order =? 4)];
    rewrite ?(ew2_zeros _ _ f_mul_zero), ?(ew2_zeros _ _ f_sub_zero),
      (ew1_zeros _ _ f_absolute_zero); by apply ew1_zeros.
Qed.

(** With as many frames as the order, no window fits: the loops of
    [calculate_acrf_] do not run and the zero map comes back. *)
Lemma acrf_no_window (fuel : nat) (l : loc) (order : Z) (lag : bool)
    (s : machine F) (a : ndarray F) (h w : nat) :
  heap s !! l = Some a →
  shape a = [Z.to_nat order; h; w] →
  0 < order →
  run (calculate_acrf_ fuel l order lag) s =
    (Return (PyArr (np_zeros [h; w])), Machine (heap s ++ [a]) (iters s)).
Proof.
  intros Hl Hsh Hord. unfold run, calculate_acrf_.
  rewrite run_bind, (run_copy _ _ _ Hl).
  rewrite run_bind, (run_load _ a) by apply lookup_fresh.
  unfold unpack3, np_mean0. rewrite Hsh.
  rewrite bind_lift_return. simpl. rewrite bind_lift_return.
  rewrite Z2Nat.id by lia.
  destruct lag; simpl.
  - rewrite run_bind, while_done; [done |].
    simpl. unfold Qc_ltb. apply bool_decide_eq_false_2.
    apply (irreflexivity Qclt).
  - rewrite run_bind, while_done by (simpl; lia).
    simpl. unfold mret, M_ret. by rewrite finish_zeros.
Qed.
End NoWindow.

(** ** Dispatch of the SRRF entry point *)

Section Dispatch.
Context {F : Type} `{Dtype F}.

Lemma run_np_array (l : loc) (a : ndarray F) (s : machine F) :
  heap s !! l = Some a →
  np_array l s
  = (Return (length (heap s)), Machine (heap s ++ [a]) (iters s)).
Proof. apply run_copy. Qed.

(** The state in which the entry points start their work: the caller's
    array has been copied. *)
Lemma srrf_entry (fuel : nat) (l : loc) (order : Z) (lag : bool)
    (s : machine F) (a : ndarray F) :
  heap s !! l = Some a →
  run (calculate_SRRF_temporal_correlations fuel l order lag) s =
    let im := length (heap s) in
    let s1 := Machine (heap s ++ [a]) (iters s) in
    if negb (bool_decide (ndim a = 3%nat) && (order <=? 4)) then
      (Raise AssertionError, s1)
    else if order =? 0 then
      (out_array ← lift (np_amax0 a); mret (PyArr out_array)) s1
    else if order =? 1 then
      (out_array ← lift (np_mean0 a); mret (PyArr out_array)) s1
    else if order =? -1 then
      calculate_pairwise_product_sum im s1
    else
      calculate_acrf_ fuel im order lag s1.
Proof.
  intros Hl. unfold run, calculate_SRRF_temporal_correlations.
  rewrite run_bind, (run_np_array _ _ _ Hl).
  rewrite run_bind, (run_load _ a) by apply lookup_fresh.
  simpl. by repeat case_match.
Qed.

Lemma srrf_cumulant (fuel : nat) (l : loc) (order : Z) (lag : bool)
    (s : machine F) (a : ndarray F) :
  heap s !! l = Some a →
  ndim a = 3%nat → order ≤ 4 → order ≠ 0 → order ≠ 1 → order ≠ -1 →
  run (calculate_SRRF_temporal_correlations fuel l order lag) s =
    run (calculate_acrf_ fuel (length (heap s)) order lag)
        (Machine (heap s ++ [a]) (iters s)).
Proof.
  intros Hl Hnd Hle H0 H1 Hm1. rewrite (srrf_entry _ _ _ _ _ _ Hl). simpl.
  rewrite bool_decide_eq_true_2 by done.
  destruct (Z.leb_spec order 4); [| lia]. simpl.
  destruct (Z.eqb_spec order 0); [lia |].
  destruct (Z.eqb_spec order 1); [lia |].
  destruct (Z.eqb_spec order (-1)); [lia |]. done.
Qed.

End Dispatch.

(** ** As many frames as the order *)

Section CumulantBoundary.
Context {F : Type} `{DtypeLaws F}.

Lemma srrf_no_window (fuel : nat) (l : loc) (order : Z) (lag : bool)
    (s : machine F) (a : ndarray F) (h w : nat) :
  heap s !! l = Some a →
  shape a = [Z.to_nat order; h; w] →
  2 ≤ order ≤ 4 →
  run (calculate_SRRF_temporal_correlations fuel l order lag) s =
    (Return (PyArr (np_zeros [h; w])),
     Machine (heap s ++ [a; a]) (iters s)).
Proof.
  intros Hl Hsh Hord.
  rewrite (srrf_cumulant _ _ _ _ _ a) by (done || lia || (unfold ndim; by rewrite Hsh)).
  rewrite (acrf_no_window _ _ _ _ _ a h w); simpl; try done; try lia.
  - by rewrite <- app_assoc.
  - apply lookup_fresh.
Qed.

(** C3.  A stack with exactly [order] frames, for the cumulant orders 2,
    3 and 4 and with or without lag-time integration: the entry point
    returns the all-zero map of the frame's height and width, it raises
    nothing, and the count of executed loop bodies is what it was, so
    the sliding-window loop ran zero times. *)
Theorem cumulant_frames_eq_order (fuel : nat) (l : loc) (order : Z)
    (lag : bool) (s : machine F) (a : ndarray F) (h w : nat) :
  heap s !! l = Some a →
  shape a = [Z.to_nat order; h; w] →
  2 ≤ order ≤ 4 →
  ∃ s', run (calculate_SRRF_temporal_correlations fuel l order lag) s
        = (Return (PyArr (np_zeros [h; w])), s')
        ∧ iters s' = iters s.
Proof.
  intros Hl Hsh Hord. eexists. split.
  - by apply srrf_no_window.
  - reflexivity.
Qed.

(** C2, as the code has it.  On the two-frame stack [[A, A + 1]] the
    order-2 cumulant without lag-time integration is the all-zero map
    of the shape of [A]: the loop bound [T - order] is 0, no window is
    accumulated. *)
Theorem cumulant2_pair_is_zero (fuel : nat) (l : loc) (s : machine F)
    (A : ndarray F) (h w : nat) :
  shape A = [h; w] →
  heap s !! l = Some (pair_stack A) →
  fst (run (calculate_SRRF_temporal_correlations fuel l 2 false) s)
  = Return (PyArr (np_zeros [h; w])).
Proof.
  intros Hsh Hl.
  rewrite (srrf_no_window _ _ _ _ _ (pair_stack A) h w); try done; try lia.
  unfold pair_stack. simpl. by rewrite Hsh.
Qed.

End CumulantBoundary.

(** C3 at a stack of two 1x2 frames. *)
Lemma cumulant_frames_eq_order_witness :
  ∃ s', run (calculate_SRRF_temporal_correlations 0 0%nat 2 true)
            (caller (NdArray [2; 1; 2]%nat (pixels [1; 2; 3; 4])))
        = (Return (PyArr (np_zeros [1; 2]%nat)), s')
        ∧ iters s' = 0%nat.
Proof.
  apply (cumulant_frames_eq_order (F := Qc) 0 0%nat 2 true
           (caller (NdArray [2; 1; 2]%nat (pixels [1; 2; 3; 4])))
           (NdArray [2; 1; 2]%nat (pixels [1; 2; 3; 4])) 1 2);
    [reflexivity | reflexivity | lia].
Defined.

(** C2 at [A = [[5, 7]]]. *)
Lemma cumulant2_pair_is_zero_witness :
  fst (run (calculate_SRRF_temporal_correlations 0 0%nat 2 false)
           (caller (pair_stack (NdArray [1; 2]%nat (pixels [5; 7])))))
  = Return (PyArr (np_zeros [1; 2]%nat)).
Proof.
  apply (cumulant2_pair_is_zero (F := Qc) 0 0%nat
           (caller (pair_stack (NdArray [1; 2]%nat (pixels [5; 7]))))
           (NdArray [1; 2]%nat (pixels [5; 7])) 1 2);
    reflexivity.
Defined.

(** C2, as the specification has it, fails: for [A = [[0]]] the map is
    [[0]], and 0 is not 1/2. *)
Lemma cumulant2_pair_not_half :
  ∃ out : ndarray Qc,
    fst (run (calculate_SRRF_temporal_correlations 0 0%nat 2 false)
             (caller (pair_stack (NdArray [1; 1]%nat (pixels [0])))))
    = Return (PyArr out)
    ∧ ¬ Forall (λ x, x = (1 / 2)%Qc) (data out).
Proof.
  exists (np_zeros [1; 1]%nat). split.
  - by rewrite (srrf_no_window (F := Qc) _ _ _ _ _
                  (pair_stack (NdArray [1; 1]%nat (pixels [0]))) 1 1).
  - simpl. intros Hall. apply Forall_cons_1 in Hall as [Heq _].
    apply (f_equal this) in Heq. vm_compute in Heq. discriminate.
Qed.

(** ** A stack below zero *)

Lemma elem_of_range2 (a b x : Z) : x ∈ range2 a b → a ≤ x < b.
Proof.
  unfold range2. intros (k & -> & Hk)%list_elem_of_fmap.
  apply elem_of_seq in Hk. lia.
Qed.

Lemma py_index_inside (n : nat) (i : Z) :
  0 ≤ i < Z.of_nat n → py_index n i = Some (Z.to_nat i).
Proof. intros Hi. unfold py_index. by rewrite decide_True. Qed.

Section NegativeStack.
Context {F : Type} `{DtypeLaws F}.

Lemma frame_negative (a : ndarray F) (k : nat) :
  strictly_negative a → strictly_negative (frame a k).
Proof.
  unfold strictly_negative, frame. simpl. intros Ha.
  by apply Forall_take, Forall_drop.
Qed.

Lemma np_any_clip0_negative (a : ndarray F) :
  strictly_negative a → np_any (clip0 a) = false.
Proof.
  unfold strictly_negative, np_any, clip0, ew1. simpl.
  induction 1 as [| x xs Hx _ IH]; [done |]. csimpl.
  by rewrite (f_maximum_neg x Hx), f_truthy_zero, IH.
Qed.

Lemma at_inside (l : loc) (s : machine F) (a : ndarray F) (n : nat)
    (sh : list nat) (i : Z) :
  heap s !! l = Some a → shape a = n :: sh → 0 ≤ i < Z.of_nat n →
  at_ l i s = (Return (frame a (Z.to_nat i)), s).
Proof.
  intros Hl Hsh Hi. unfold at_.
  rewrite run_bind, (run_load _ _ _ Hl). unfold getitem.
  by rewrite Hsh, (py_index_inside _ _ Hi).
Qed.

Lemma pps_negative (l : loc) (s : machine F) (a : ndarray F) (n h w : nat) :
  heap s !! l = Some a →
  shape a = [n; h; w] →
  strictly_negative a →
  calculate_pairwise_product_sum l s = (Return (PyFloat 0%Qc), s).
Proof.
  intros Hl Hsh Hneg. unfold calculate_pairwise_product_sum.
  rewrite run_bind, (run_load _ _ _ Hl). unfold unpack3. rewrite Hsh.
  rewrite bind_lift_return. simpl.
  match goal with |- context [for_ _ ?b _] => set (body := b) end.
  assert (Hloop : ∀ xs v, (∀ x, x ∈ xs → 0 ≤ x < Z.of_nat n) →
            pps v = PyInt 0 →
            ∃ v', for_ xs body v s = (Return v', s) ∧ pps v' = PyInt 0).
  { induction xs as [| x xs IH]; intros v Hxs Hv.
    - by exists v.
    - change (for_ (x :: xs) body v) with (s' ← body v x; for_ xs body s').
      rewrite run_bind. unfold body at 1.
      rewrite run_bind, (at_inside _ _ a n [h; w]) by (done || apply Hxs; left).
      rewrite np_any_clip0_negative by by apply frame_negative.
      simpl Z.gtb. cbv iota. unfold mret at 1, M_ret at 1.
      apply IH; [intros y Hy; apply Hxs; by right | done]. }
  destruct (Hloop (range (Z.of_nat n)) (PpsVars (PyInt 0) 0))
    as (v' & Hrun & Hv');
    [intros x Hx; by apply elem_of_range2 in Hx | done |].
  rewrite run_bind, Hrun, Hv'. unfold py_div_int. rewrite decide_False by lia.
  rewrite bind_lift_return. unfold mret, M_ret. do 3 f_equal.
  rewrite Z2Qc_inj_0. apply Qcmult_0_l.
Qed.

(** C4, what the code does.  On a stack whose pixels are all below
    zero the pairwise product sum is the Python float [0.0]: no frame is
    ever added to the integer [pps = 0], which is then divided by the
    count.  The result is a scalar, not an array of the frames' height
    and width. *)
Theorem pairwise_negative_is_scalar (fuel : nat) (l : loc) (lag : bool)
    (s : machine F) (a : ndarray F) (n h w : nat) :
  heap s !! l = Some a →
  shape a = [n; h; w] →
  strictly_negative a →
  fst (run (calculate_SRRF_temporal_correlations fuel l (-1) lag) s)
  = Return (PyFloat 0%Qc).
Proof.
  intros Hl Hsh Hneg. rewrite (srrf_entry _ _ _ _ _ _ Hl). simpl.
  unfold ndim. rewrite Hsh. simpl.
  by rewrite (pps_negative _ _ a n h w) by (done || apply lookup_fresh).
Qed.

End NegativeStack.

(** C4 at the one-frame stack [[[-1]]]. *)
Lemma pairwise_negative_is_scalar_witness :
  fst (run (calculate_SRRF_temporal_correlations 0 0%nat (-1) false)
           (caller (NdArray [1; 1; 1]%nat (pixels [-1]))))
  = Return (PyFloat 0%Qc).
Proof.
  apply (pairwise_negative_is_scalar (F := Qc) 0 0%nat false
           (caller (NdArray [1; 1; 1]%nat (pixels [-1])))
           (NdArray [1; 1; 1]%nat (pixels [-1])) 1 1 1).
  - reflexivity.
  - reflexivity.
  - repeat constructor.
Defined.

(** ** Rules for [triple] *)

Section Triples.
Context {St : Type}.
Implicit Types (I : St → Prop) (E : exn → Prop) (D : Prop).

Lemma triple_lift {A} I (o : outcome A) (R : A → Prop) E D :
  match o with Return a => R a | Raise e => E e | Diverge => D end →
  triple I (lift o) R E D.
Proof. intros Ho s Hs. unfold lift. by destruct o. Qed.

Lemma triple_ret {A} I (a : A) (R : A → Prop) E D :
  R a → triple I (mret a) R E D.
Proof. intros Ha. by apply (triple_lift I (Return a)). Qed.

Lemma triple_raise {A} I (e : exn) (R : A → Prop) E D :
  E e → triple I (raise e) R E D.
Proof. intros He. by apply (triple_lift I (Raise e)). Qed.

Lemma triple_bind {A B} I (m : M St A) (k : A → M St B)
    (R1 : A → Prop) (R2 : B → Prop) E D :
  triple I m R1 E D →
  (∀ a, R1 a → triple I (k a) R2 E D) →
  triple I (m ≫= k) R2 E D.
Proof.
  intros Hm Hk s Hs. generalize (Hm s Hs).
  unfold mbind, M_bind. destruct (m s) as [[a | e |] s']; [| done..].
  intros [Hs' Ha]. by apply Hk.
Qed.

Lemma triple_weaken {A} I (m : M St A) (R R' : A → Prop) E E' D :
  triple I m R E D →
  (∀ a, R a → R' a) → (∀ e, E e → E' e) →
  triple I m R' E' D.
Proof.
  intros Hm HR HE s Hs. generalize (Hm s Hs).
  destruct (m s) as [[a | e |] s']; [intros []; split; auto.. | done].
Qed.

End Triples.

(** The exceptions of the primitives are library errors. *)
Lemma library_IndexError : library_error IndexError.
Proof. by split. Qed.
Lemma library_NameError : library_error NameError.
Proof. by split. Qed.
Lemma library_AxisError : library_error AxisError.
Proof. by split. Qed.
Lemma library_ZeroDivisionError : library_error ZeroDivisionError.
Proof. by split. Qed.
Lemma library_unpack : library_error (ValueError unpack_msg).
Proof. by split. Qed.
Lemma library_broadcast : library_error (ValueError broadcast_msg).
Proof. by split. Qed.
Lemma library_empty_max : library_error (ValueError empty_max_msg).
Proof. by split. Qed.

Create HintDb lib_err.
#[export] Hint Resolve library_IndexError library_NameError library_AxisError
  library_ZeroDivisionError library_unpack library_broadcast
  library_empty_max : lib_err.

Ltac lib_cases :=
  repeat case_match; simplify_eq; first [done | auto with lib_err].

Section HeapTriples.
Context {F : Type} `{Dtype F}.
Variable h0 : list (ndarray F).
Variable D : Prop.

Local Abbreviation M := (M (machine F)).
Local Abbreviation any := (λ _, True).
Local Abbreviation fresh := (λ l : loc, length h0 ≤ l)%nat.

Lemma triple_load (l : loc) :
  triple (extends h0) (load l) any library_error D.
Proof.
  intros s Hs. unfold load. destruct (heap s !! l); auto with lib_err.
Qed.

Lemma triple_alloc (a : ndarray F) :
  triple (extends h0) (alloc a) fresh library_error D.
Proof.
  intros s Hs. unfold alloc, extends in *. simpl. split.
  - by apply prefix_app_r.
  - by apply prefix_length.
Qed.

Lemma triple_store (l : loc) (a : ndarray F) :
  fresh l → triple (extends h0) (store l a) any library_error D.
Proof.
  intros Hl s Hs. unfold store.
  destruct (heap s !! l); [| auto with lib_err]. split; [| done].
  unfold extends in *. simpl. destruct Hs as [k ->].
  rewrite insert_app_r_alt by done. by apply prefix_app_r.
Qed.

Lemma triple_tick : triple (extends h0) tick any library_error D.
Proof. intros s Hs. by split. Qed.

Lemma triple_copy (l : loc) :
  triple (extends h0) (copy l) fresh library_error D.
Proof.
  eapply triple_bind; [apply triple_load |].
  intros a _. apply triple_alloc.
Qed.

Lemma triple_getitem (a : ndarray F) (i : Z) :
  triple (extends h0) (lift (getitem a i)) any library_error D.
Proof.
  apply triple_lift. unfold getitem.
  lib_cases.
Qed.

Lemma triple_at (l : loc) (i : Z) :
  triple (extends h0) (at_ l i) any library_error D.
Proof.
  eapply triple_bind; [apply triple_load |].
  intros a _. apply triple_getitem.
Qed.

Lemma triple_assign (l : loc) (i : Z) (v : ndarray F) :
  fresh l → triple (extends h0) (assign l i v) any library_error D.
Proof.
  intros Hl. eapply triple_bind; [apply triple_load |]. intros a _.
  eapply triple_bind with (R1 := any).
  - apply triple_lift. unfold setitem. lib_cases.
  - intros a' _. by apply triple_store.
Qed.

Lemma triple_unpack3 (a : ndarray F) :
  triple (extends h0) (lift (unpack3 a)) any library_error D.
Proof.
  apply triple_lift. unfold unpack3. lib_cases.
Qed.

Lemma triple_mean0 (a : ndarray F) :
  triple (extends h0) (lift (np_mean0 a)) any library_error D.
Proof.
  apply triple_lift. unfold np_mean0. lib_cases.
Qed.

Lemma triple_amax0 (a : ndarray F) :
  triple (extends h0) (lift (np_amax0 a)) any library_error D.
Proof.
  apply triple_lift. unfold np_amax0. lib_cases.
Qed.

Lemma triple_var0 (a : ndarray F) :
  triple (extends h0) (lift (np_var0 a)) any library_error D.
Proof.
  apply triple_lift. unfold np_var0, np_mean0.
  lib_cases.
Qed.

Lemma triple_while {S} (fuel : nat) (cond : S → bool) (body : S → M S)
    (st : S) :
  D →
  (∀ st, triple (extends h0) (body st) any library_error D) →
  triple (extends h0) (while fuel cond body st) any library_error D.
Proof.
  intros HD Hbody. revert st.
  induction fuel as [| fuel IH]; intros st; simpl.
  - destruct (cond st); [| by apply triple_ret]. by intros s Hs.
  - destruct (cond st); [| by apply triple_ret].
    eapply triple_bind; [apply triple_tick |]. intros _ _.
    eapply triple_bind; [apply Hbody |]. intros st' _. apply IH.
Qed.

Lemma triple_for {S} (xs : list Z) (body : S → Z → M S) (st : S) :
  (∀ st x, triple (extends h0) (body st x) any library_error D) →
  triple (extends h0) (for_ xs body st) any library_error D.
Proof.
  intros Hbody. revert st. induction xs as [| x xs IH]; intros st; simpl.
  - by apply triple_ret.
  - eapply triple_bind; [apply Hbody |]. intros st' _. apply IH.
Qed.

(** A loop whose measure falls at every turn ends within its fuel. *)
Lemma triple_while_measure {S} (mu : S → nat) (Rinv : S → Prop) (fuel : nat)
    (cond : S → bool) (body : S → M S) (st : S) :
  (∀ st, Rinv st → cond st = true → (0 < mu st)%nat) →
  (∀ st, Rinv st → cond st = true →
     triple (extends h0) (body st)
       (λ st', Rinv st' ∧ (mu st' < mu st)%nat) library_error D) →
  Rinv st → (mu st ≤ fuel)%nat →
  triple (extends h0) (while fuel cond body st) Rinv library_error D.
Proof.
  intros Hpos Hbody. revert st.
  induction fuel as [| fuel IH]; intros st Hst Hmu; simpl.
  - destruct (cond st) eqn:Hc; [| by apply triple_ret].
    specialize (Hpos st Hst Hc). lia.
  - destruct (cond st) eqn:Hc; [| by apply triple_ret].
    eapply triple_bind; [apply triple_tick |]. intros _ _.
    eapply triple_bind; [by apply Hbody |]. intros st' [Hst' Hlt].
    apply IH; [done | lia].
Qed.

End HeapTriples.

(** ** What the functions raise and what they leave alone *)

Section EngineTriples.
Context {F : Type} `{Dtype F}.
Variable h0 : list (ndarray F).
Variable D : Prop.

Local Abbreviation any := (λ _, True).

Ltac step :=
  first
    [ apply triple_load | apply triple_at | apply triple_copy
    | apply triple_unpack3 | apply triple_mean0 | apply triple_amax0
    | apply triple_var0 | apply triple_tick
    | by apply triple_ret | by apply triple_assign
    | apply triple_raise; by auto with lib_err ].

Ltac steps :=
  repeat first
    [ step
    | eapply triple_bind; [step |]; intros ? ?
    | match goal with
      | |- triple _ (if ?c then _ else _) _ _ _ => destruct c
      | |- triple _ (let '(_, _) := ?p in _) _ _ _ => destruct p
      end ].

Lemma triple_pairwise (rad_array : loc) :
  triple (extends h0) (calculate_pairwise_product_sum rad_array)
    any library_error D.
Proof.
  unfold calculate_pairwise_product_sum. steps.
  eapply triple_bind with (R1 := any).
  - apply triple_for. intros v t0. steps.
    apply triple_for. intros v' t1. steps.
  - intros v _. eapply triple_bind with (R1 := any); [| intros; by apply triple_ret].
    apply triple_lift. unfold py_div_int. lib_cases.
Qed.

Lemma triple_accumulate (im : loc) (mean : ndarray F) (order t : Z)
    (c : accs) :
  triple (extends h0) (accumulate im mean order t c) any library_error D.
Proof.
  unfold accumulate. steps.
  eapply triple_bind with (R1 := any); [steps | intros; steps].
Qed.

Lemma triple_acrf (fuel : nat) (rad_array : loc) (order : Z) (lag : bool) :
  D →
  triple (extends h0) (calculate_acrf_ fuel rad_array order lag)
    any library_error D.
Proof.
  intros HD. unfold calculate_acrf_.
  eapply triple_bind; [apply triple_copy |]. intros im Him. steps.
  - eapply triple_bind with (R1 := any); [| intros; by apply triple_ret].
    apply triple_while; [done |]. intros st.
    eapply triple_bind; [apply triple_accumulate |]. intros c _. steps.
  - eapply triple_bind with (R1 := any); [| intros; by apply triple_ret].
    apply triple_while; [done |]. intros st.
    eapply triple_bind with (R1 := any); [| intros; steps].
    apply triple_while; [done |]. intros st'.
    eapply triple_bind; [apply triple_accumulate |]. intros c _. steps.
    eapply triple_bind with (R1 := any); [| intros; steps].
    destruct (Qc_ltb _ _); [| steps].
    apply triple_for. intros [] _t. steps.
Qed.

Lemma triple_tac2 (rad_array : loc) :
  triple (extends h0) (calculate_tac2 rad_array) any library_error D.
Proof. unfold calculate_tac2. steps. Qed.

Lemma triple_or_library {A} (m : M (machine F) A) (e0 : exn) :
  triple (extends h0) m any library_error D →
  triple (extends h0) m any (λ e, e = e0 ∨ library_error e) D.
Proof. intros Hm. eapply triple_weaken; [exact Hm | done | by right]. Qed.

Lemma triple_eSRRF (im : loc) (correlation : string) :
  triple (extends h0) (calculate_eSRRF_temporal_correlations im correlation)
    any (λ e, e ≠ AssertionError) D.
Proof.
  unfold calculate_eSRRF_temporal_correlations, np_array.
  eapply triple_weaken with (E := λ e, e = ValueError unknown_kind_msg ∨ library_error e);
    [| done | intros e [-> | []]; done].
  eapply triple_bind with (R1 := any).
  { eapply triple_weaken; [apply triple_copy | done | by right]. }
  intros im' _.
  eapply triple_bind with (R1 := any).
  { eapply triple_weaken; [apply triple_load | done | by right]. }
  intros a _.
  repeat match goal with |- triple _ (if ?c then _ else _) _ _ _ => destruct c end.
  - apply triple_or_library. steps.
  - apply triple_or_library. steps.
  - apply triple_or_library, triple_tac2.
  - apply triple_raise. by left.
Qed.

Lemma triple_SRRF (fuel : nat) (im : loc) (order : Z) (lag : bool) :
  D →
  triple (extends h0)
    (calculate_SRRF_temporal_correlations fuel im order lag)
    any (λ e, e ≠ ValueError unknown_kind_msg) D.
Proof.
  intros HD. unfold calculate_SRRF_temporal_correlations, np_array.
  eapply triple_weaken with (E := λ e, e = AssertionError ∨ library_error e);
    [| done | intros e [-> | []]; done].
  eapply triple_bind with (R1 := any).
  { eapply triple_weaken; [apply triple_copy | done | by right]. }
  intros im' _.
  eapply triple_bind with (R1 := any).
  { eapply triple_weaken; [apply triple_load | done | by right]. }
  intros a _.
  repeat match goal with |- triple _ (if ?c then _ else _) _ _ _ => destruct c end.
  - apply triple_raise. by left.
  - apply triple_or_library. steps.
  - apply triple_or_library. steps.
  - apply triple_or_library, triple_pairwise.
  - by apply triple_or_library, triple_acrf.
Qed.

End EngineTriples.

(** ** The claims about errors and about the caller's array *)

Section EntryPoints.
Context {F : Type} `{Dtype F}.

Lemma triple_raises {St A} (I : St → Prop) (m : M St A) (R : A → Prop)
    (E : exn → Prop) (D : Prop) (s : St) (e : exn) :
  triple I m R E D → I s → fst (run m s) = Raise e → E e.
Proof.
  intros Hm Hs. generalize (Hm s Hs). unfold run.
  destruct (m s) as [[a | e' |] s']; simpl; intros [_ He] [=]. by subst.
Qed.

Lemma triple_final {St A} (I : St → Prop) (m : M St A) (R : A → Prop)
    (E : exn → Prop) (D : Prop) (s : St) :
  triple I m R E D → I s → I (snd (run m s)).
Proof.
  intros Hm Hs. generalize (Hm s Hs). unfold run.
  by destruct (m s) as [[a | e' |] s']; simpl; intros [? _].
Qed.

Lemma esrrf_entry (l : loc) (correlation : string) (s : machine F)
    (a : ndarray F) :
  heap s !! l = Some a →
  run (calculate_eSRRF_temporal_correlations l correlation) s =
    let im := length (heap s) in
    let s1 := Machine (heap s ++ [a]) (iters s) in
    if String.eqb correlation "AVG" then
      (out_array ← lift (np_mean0 a); mret (PyArr out_array)) s1
    else if String.eqb correlation "VAR" then
      (out_array ← lift (np_var0 a); mret (PyArr out_array)) s1
    else if String.eqb correlation "TAC2" then
      calculate_tac2 im s1
    else
      (Raise (ValueError unknown_kind_msg), s1).
Proof.
  intros Hl. unfold run, calculate_eSRRF_temporal_correlations.
  rewrite run_bind, (run_np_array _ _ _ Hl).
  rewrite run_bind, (run_load _ a) by apply lookup_fresh.
  simpl. by repeat case_match.
Qed.

Lemma not_allowed_kind (correlation : string) :
  correlation ∉ allowed_kinds ↔
  String.eqb correlation "AVG" = false
  ∧ String.eqb correlation "VAR" = false
  ∧ String.eqb correlation "TAC2" = false.
Proof.
  unfold allowed_kinds. rewrite !not_elem_of_cons, !String.eqb_neq.
  pose proof (not_elem_of_nil correlation). tauto.
Qed.

(** C5, as the code has it.  The eSRRF entry point raises the
    [ValueError] that names AVG, VAR and TAC2 exactly when the kind is
    none of the three, and then at once: only the copy of the input has
    been made.  It is not the only check: the SRRF entry point asserts
    that the input has three dimensions and that the order is at most
    4, and raises an [AssertionError] exactly when that fails. *)
Theorem validated_errors (fuel : nat) (im : loc) (order : Z) (lag : bool)
    (correlation : string) (s : machine F) (a : ndarray F) :
  heap s !! im = Some a →
  (fst (run (calculate_eSRRF_temporal_correlations im correlation) s)
     = Raise (ValueError unknown_kind_msg)
   ↔ correlation ∉ allowed_kinds)
  ∧ (correlation ∉ allowed_kinds →
     run (calculate_eSRRF_temporal_correlations im correlation) s
     = (Raise (ValueError unknown_kind_msg),
        Machine (heap s ++ [a]) (iters s)))
  ∧ (fst (run (calculate_SRRF_temporal_correlations fuel im order lag) s)
       = Raise AssertionError
     ↔ ndim a ≠ 3%nat ∨ 4 < order).
Proof.
  intros Hl.
  assert (Hunk : correlation ∉ allowed_kinds →
            run (calculate_eSRRF_temporal_correlations im correlation) s
            = (Raise (ValueError unknown_kind_msg),
               Machine (heap s ++ [a]) (iters s))).
  { intros (H1 & H2 & H3)%not_allowed_kind.
    rewrite (esrrf_entry _ _ _ _ Hl). simpl. by rewrite H1, H2, H3. }
  split; [| split; [done |]].
  - split; [| intros Hc; by rewrite Hunk].
    intros Hr. apply not_allowed_kind.
    rewrite (esrrf_entry _ _ _ _ Hl) in Hr. simpl in Hr.
    assert (Hlib : ∀ m : M (machine F) (pyval F),
              triple (extends []) m (λ _, True) library_error True →
              fst (m (Machine (heap s ++ [a]) (iters s)))
                = Raise (ValueError unknown_kind_msg) → False).
    { intros m Hm Hm'.
      by destruct (triple_raises _ _ _ _ _ _ _ Hm (prefix_nil _) Hm'). }
    destruct (String.eqb correlation "AVG").
    { exfalso. revert Hr. apply Hlib.
      eapply triple_bind; [apply triple_mean0 |].
      intros; by apply triple_ret. }
    destruct (String.eqb correlation "VAR").
    { exfalso. revert Hr. apply Hlib.
      eapply triple_bind; [apply triple_var0 |].
      intros; by apply triple_ret. }
    destruct (String.eqb correlation "TAC2"); [| done].
    exfalso. revert Hr. apply Hlib, triple_tac2.
  - rewrite (srrf_entry _ _ _ _ _ _ Hl). simpl.
    assert (Hlib : ∀ m : M (machine F) (pyval F),
              triple (extends []) m (λ _, True) library_error True →
              fst (m (Machine (heap s ++ [a]) (iters s)))
                = Raise AssertionError → False).
    { intros m Hm Hm'.
      by destruct (triple_raises _ _ _ _ _ _ _ Hm (prefix_nil _) Hm'). }
    destruct (decide (ndim a = 3%nat)) as [Hnd | Hnd];
      [rewrite bool_decide_eq_true_2 by done
      | rewrite bool_decide_eq_false_2 by done; simpl; by intuition].
    destruct (Z.leb_spec order 4); simpl; [| split; [lia | done]].
    split; [| lia]. intros Hr. exfalso. revert Hr.
    repeat case_match; apply Hlib.
    + eapply triple_bind; [apply triple_amax0 |].
      intros; by apply triple_ret.
    + eapply triple_bind; [apply triple_mean0 |].
      intros; by apply triple_ret.
    + apply triple_pairwise.
    + by apply triple_acrf.
Qed.

(** C9.  An order that is none of 0, 1 and -1 and passes the assertion
    sends the SRRF entry point into [calculate_acrf_] on its copy of the
    input, whatever the order is otherwise (that of a cumulant or not);
    what is raised from there is a library error, neither the assertion
    nor the unknown-kind error.  And for no input at all does the SRRF
    entry point raise the unknown-kind error. *)
Theorem srrf_dispatches_to_cumulant (fuel : nat) (im : loc) (order : Z)
    (lag : bool) (s : machine F) (a : ndarray F) :
  heap s !! im = Some a →
  ndim a = 3%nat → order ≤ 4 → order ≠ 0 → order ≠ 1 → order ≠ -1 →
  run (calculate_SRRF_temporal_correlations fuel im order lag) s
  = run (im' ← np_array im; calculate_acrf_ fuel im' order lag) s
  ∧ (∀ e, fst (run (calculate_SRRF_temporal_correlations fuel im order lag) s)
          = Raise e → library_error e)
  ∧ (∀ fuel' im' order' lag' (s' : machine F),
       fst (run (calculate_SRRF_temporal_correlations fuel' im' order' lag') s')
       ≠ Raise (ValueError unknown_kind_msg)).
Proof.
  intros Hl Hnd Hle H0 H1 Hm1.
  assert (Heq : run (calculate_SRRF_temporal_correlations fuel im order lag) s
                = run (im' ← np_array im; calculate_acrf_ fuel im' order lag) s).
  { rewrite (srrf_cumulant _ _ _ _ _ a) by done.
    unfold run. by rewrite run_bind, (run_np_array _ _ _ Hl). }
  split; [done | split].
  - intros e. rewrite Heq. apply (triple_raises (extends []) _ (λ _, True) _ True).
    + eapply triple_bind; [apply triple_copy |].
      intros im' _. by apply triple_acrf.
    + apply prefix_nil.
  - intros fuel' im' order' lag' s' Hr.
    by apply (triple_raises _ _ _ _ _ _ _
                (triple_SRRF [] True fuel' im' order' lag' I) (prefix_nil _)) in Hr.
Qed.

(** C7.  Whatever the entry point, the kind and the lag flag, and
    however the call ends, every array the caller holds, the input
    stack among them, is afterwards what it was: the writes of the
    binning step go to a copy.  The same holds for a direct call of
    [calculate_acrf_]. *)
Theorem input_not_mutated (fuel : nat) (im : loc) (order : Z) (lag : bool)
    (correlation : string) (s : machine F) (l : loc) (a : ndarray F) :
  heap s !! l = Some a →
  heap (snd (run (calculate_SRRF_temporal_correlations fuel im order lag) s))
    !! l = Some a
  ∧ heap (snd (run (calculate_eSRRF_temporal_correlations im correlation) s))
      !! l = Some a
  ∧ heap (snd (run (calculate_acrf_ fuel im order lag) s)) !! l = Some a.
Proof.
  intros Hl.
  assert (Hkeep : ∀ m : M (machine F) (pyval F), ∀ E,
            triple (extends (heap s)) m (λ _, True) E True →
            heap (snd (run m s)) !! l = Some a).
  { intros m E Hm.
    pose proof (triple_final _ _ _ _ _ s Hm (reflexivity _)) as Hext.
    by apply (prefix_lookup_Some _ _ _ _ Hl). }
  repeat split.
  - eapply Hkeep. by apply triple_SRRF.
  - eapply Hkeep. apply triple_eSRRF.
  - eapply Hkeep. by apply triple_acrf.
Qed.

End EntryPoints.

(** C5 at a one-frame stack and the kind ["MAX"]. *)
Lemma validated_errors_witness :
  run (calculate_eSRRF_temporal_correlations 0%nat "MAX")
      (caller (NdArray [1; 1; 1]%nat (pixels [7])))
  = (Raise (ValueError unknown_kind_msg),
     Machine [NdArray [1; 1; 1]%nat (pixels [7]);
              NdArray [1; 1; 1]%nat (pixels [7])] 0).
Proof.
  refine (proj1 (proj2 (validated_errors (F := Qc) 0 0%nat 1 false "MAX"
                          (caller (NdArray [1; 1; 1]%nat (pixels [7])))
                          (NdArray [1; 1; 1]%nat (pixels [7])) _)) _).
  - reflexivity.
  - apply not_allowed_kind. repeat split; reflexivity.
Defined.

(** C5, as the specification has it, fails: the SRRF entry point checks
    the shape of its input.  On the 2-D array [[7]] it raises, and what it
    raises is not the unknown-kind error. *)
Lemma srrf_rejects_2d_input :
  ∃ e, fst (run (calculate_SRRF_temporal_correlations 0 0%nat 1 false)
                (caller (NdArray [1; 1]%nat (pixels [7]))))
       = Raise e
       ∧ e ≠ ValueError unknown_kind_msg.
Proof. exists AssertionError. split; [reflexivity | discriminate]. Qed.

(** C9 at the order -2 and a one-frame stack. *)
Lemma srrf_dispatches_to_cumulant_witness :
  run (calculate_SRRF_temporal_correlations 1 0%nat (-2) false)
      (caller (NdArray [1; 1; 1]%nat (pixels [7])))
  = run (im' ← np_array 0%nat; calculate_acrf_ 1 im' (-2) false)
        (caller (NdArray [1; 1; 1]%nat (pixels [7]))).
Proof.
  refine (proj1 (srrf_dispatches_to_cumulant (F := Qc) 1 0%nat (-2) false
                   (caller (NdArray [1; 1; 1]%nat (pixels [7])))
                   (NdArray [1; 1; 1]%nat (pixels [7])) _ _ _ _ _ _));
    [reflexivity | reflexivity | lia..].
Defined.

(** With the order -2 the window loop of [calculate_acrf_] is entered and
    reads past the last frame. *)
Example srrf_order_minus_2 :
  fst (run (calculate_SRRF_temporal_correlations 1 0%nat (-2) false)
           (caller (NdArray [1; 1; 1]%nat (pixels [7]))))
  = Raise IndexError.
Proof. reflexivity. Qed.

(** C7 at seven 1x1 frames, order 2 with lag-time integration. *)
Lemma input_not_mutated_witness :
  heap (snd (run (calculate_SRRF_temporal_correlations 7 0%nat 2 true)
                 (caller (NdArray [7; 1; 1]%nat (pixels [1; 2; 3; 4; 5; 6; 7])))))
    !! 0%nat
  = Some (NdArray [7; 1; 1]%nat (pixels [1; 2; 3; 4; 5; 6; 7])).
Proof.
  refine (proj1 (input_not_mutated (F := Qc) 7 0%nat 2 true "AVG"
                   (caller (NdArray [7; 1; 1]%nat (pixels [1; 2; 3; 4; 5; 6; 7])))
                   0%nat
                   (NdArray [7; 1; 1]%nat (pixels [1; 2; 3; 4; 5; 6; 7])) _)).
  reflexivity.
Defined.

(** In that run the binning step did overwrite frames, those of the
    working copy. *)
Example binning_writes_to_copy :
  (data <$> heap (snd (run (calculate_SRRF_temporal_correlations 7 0%nat 2 true)
                 (caller (NdArray [7; 1; 1]%nat (pixels [1; 2; 3; 4; 5; 6; 7])))))
    !! 2%nat)
  ≠ Some (pixels [1; 2; 3; 4; 5; 6; 7]).
Proof. vm_compute. intros [=]. Qed.

(** ** The values of CUMULANT2 and TAC2 *)

Section Frames.
Context {F : Type} `{Dtype F}.

Lemma concat_chunk (rows : list (list F)) (m k : nat) (r : list F) :
  Forall (λ r, length r = m) rows →
  rows !! k = Some r →
  take m (drop (k * m) (concat rows)) = r.
Proof.
  intros Hrows. revert k. induction Hrows as [| r0 rows Hr0 _ IH]; intros k Hk.
  - by rewrite lookup_nil in Hk.
  - destruct k as [| k].
    + simpl in Hk. simplify_eq. rewrite Nat.mul_0_l, drop_0. simpl concat.
      by rewrite take_app_length'.
    + simpl in Hk. simpl concat.
      replace (S k * m)%nat with (m + k * m)%nat by lia.
      rewrite drop_app_add' by done. by apply IH.
Qed.

Lemma length_frame (a : ndarray F) (n k : nat) (sh : list nat) :
  wf a → shape a = n :: sh → (k < n)%nat →
  length (data (frame a k)) = size_of sh.
Proof.
  unfold wf, frame, frame_size. intros Hwf Hsh Hk. rewrite Hsh in *. simpl in *.
  rewrite length_take, length_drop, Hwf. nia.
Qed.

Lemma shape_frame (a : ndarray F) (n k : nat) (sh : list nat) :
  shape a = n :: sh → shape (frame a k) = sh.
Proof. unfold frame. simpl. by intros ->. Qed.

Lemma lookup_frames (a : ndarray F) (n k : nat) (sh : list nat) :
  shape a = n :: sh → (k < n)%nat → frames a !! k = Some (frame a k).
Proof.
  intros Hsh Hk. unfold frames, len0. rewrite Hsh. simpl.
  rewrite list_lookup_fmap, lookup_seq_lt by done. done.
Qed.

Lemma length_foldl_ew2 (g : F → F → F) (m : nat) (fs : list (ndarray F))
    (f0 : ndarray F) :
  length (data f0) = m →
  Forall (λ f, length (data f) = m) fs →
  length (data (foldl (ew2 g) f0 fs)) = m.
Proof.
  intros Hf0 Hfs. revert f0 Hf0.
  induction Hfs as [| f fs Hf _ IH]; intros f0 Hf0; [done |].
  simpl. apply IH. unfold ew2. simpl. rewrite length_zip_with. lia.
Qed.

Lemma length_mean_of (a : ndarray F) (n : nat) (sh : list nat) :
  wf a → shape a = n :: sh → length (data (mean_of a)) = size_of sh.
Proof.
  intros Hwf Hsh. unfold mean_of, ew1, np_sum0, reduce0. simpl.
  rewrite length_fmap.
  assert (Hall : Forall (λ f, length (data f) = size_of sh) (frames a)).
  { apply Forall_forall. intros f (k & -> & Hk)%list_elem_of_fmap.
    apply elem_of_seq in Hk. unfold len0 in Hk. rewrite Hsh in Hk.
    apply (length_frame a n); [done.. | simpl in Hk; lia]. }
  destruct (frames a) as [| f0 fs] eqn:Hfr.
  - rewrite Hsh. simpl. by rewrite length_replicate.
  - apply Forall_cons in Hall as [Hf0 Hfs]. by apply length_foldl_ew2.
Qed.

Lemma shape_mean_of (a : ndarray F) (n : nat) (sh : list nat) :
  shape a = n :: sh → shape (mean_of a) = sh.
Proof.
  intros Hsh. unfold mean_of, ew1, np_sum0, reduce0. simpl.
  destruct (frames a) as [| f0 fs] eqn:Hfr.
  - by rewrite Hsh.
  - assert (Hf0 : shape f0 = sh).
    { assert (Hin : f0 ∈ frames a) by (rewrite Hfr; left).
      apply list_elem_of_fmap in Hin as (k & -> & _).
      by apply (shape_frame a n). }
    clear Hfr. revert f0 Hf0. induction fs as [| f fs IH]; intros f0 Hf0; [done |].
    simpl. by apply IH.
Qed.

Lemma length_lag1_product (a : ndarray F) (n k : nat) (sh : list nat) :
  wf a → shape a = n :: sh → (S k < n)%nat →
  length (data (lag1_product a k)) = size_of sh.
Proof.
  intros Hwf Hsh Hk. unfold lag1_product, ew2. cbn [data].
  rewrite !length_zip_with, (length_mean_of a n sh) by done.
  rewrite !(length_frame a n _ sh) by (done || lia). lia.
Qed.

Lemma shape_lag1_product (a : ndarray F) (n k : nat) (sh : list nat) :
  shape a = n :: sh → shape (lag1_product a k) = sh.
Proof. intros Hsh. unfold lag1_product, ew2. simpl. by rewrite Hsh. Qed.

(** The frames of [centered[:-1] * centered[1:]]. *)
Lemma frame_lagged (a : ndarray F) (n k : nat) (sh : list nat) :
  wf a → shape a = n :: sh → (S k < n)%nat →
  let centered := sub_frames a (mean_of a) in
  frame (ew2 f_mul (slice_init centered) (slice_tail centered)) k
  = lag1_product a k.
Proof.
  intros Hwf Hsh Hk centered.
  set (m := size_of sh).
  set (rows := (λ f, data (ew2 f_sub f (mean_of a))) <$> frames a).
  assert (Hrows : Forall (λ r, length r = m) rows).
  { apply Forall_forall. intros r (f & -> & Hf)%list_elem_of_fmap.
    apply list_elem_of_fmap in Hf as (j & -> & Hj).
    apply elem_of_seq in Hj. unfold len0 in Hj. rewrite Hsh in Hj. simpl in Hj.
    unfold ew2. cbn [data].
    rewrite length_zip_with, (length_mean_of a n sh), (length_frame a n j sh)
      by (done || lia). lia. }
  assert (Hrow : ∀ j, (j < n)%nat →
            take m (drop (j * m) (concat rows))
            = data (ew2 f_sub (frame a j) (mean_of a))).
  { intros j Hj. apply concat_chunk; [done |]. unfold rows.
    by rewrite list_lookup_fmap, (lookup_frames a n j sh). }
  unfold frame, frame_size, lag1_product, slice_init, slice_tail, ew2.
  subst centered. unfold sub_frames. simpl. rewrite Hsh. simpl.
  fold m. fold rows. f_equal.
  rewrite zip_with_drop, zip_with_take. f_equal.
  - rewrite take_drop_commute, take_take, Nat.min_l by nia.
    rewrite <- take_drop_commute. by apply Hrow; lia.
  - rewrite drop_drop. by apply (Hrow (S k)).
Qed.

End Frames.

Section Values.
Context {F : Type} `{Dtype F}.

(** The sum of the first [k] lag-1 products, from the zero map. *)
Lemma while_step {S} (fuel : nat) (cond : S → bool)
    (body : S → M (machine F) S) (st : S) :
  cond st = true →
  while (Datatypes.S fuel) cond body st
  = (tick;; st' ← body st; while fuel cond body st').
Proof. intros Hc. simpl. by rewrite Hc. Qed.

Lemma accumulate_order2 (im : loc) (mean : ndarray F) (t : Z) (c : accs)
    (s : machine F) (a : ndarray F) (n : nat) (sh : list nat) :
  heap s !! im = Some a → shape a = n :: sh →
  0 ≤ t → t + 1 < Z.of_nat n →
  accumulate im mean 2 t c s
  = (Return (set_ab (ew2 f_add (ab c)
                       (ew2 f_mul (ew2 f_sub (frame a (Z.to_nat t)) mean)
                                  (ew2 f_sub (frame a (S (Z.to_nat t))) mean)))
                    c), s).
Proof.
  intros Hl Hsh Ht0 Ht1. unfold accumulate.
  rewrite run_bind, (at_inside im s a n sh) by (done || lia).
  rewrite run_bind, (at_inside im s a n sh) by (done || lia).
  simpl. by rewrite Z2Nat.inj_add, Nat.add_1_r by lia.
Qed.

Lemma sliding2_loop (im : loc) (a : ndarray F) (n : nat) (sh : list nat)
    (k : nat) :
  ∀ (t : Z) (c : accs) (fuel : nat) (s : machine F),
    heap s !! im = Some a → shape a = n :: sh →
    0 ≤ t → t + Z.of_nat k = Z.of_nat n - 2 → (k ≤ fuel)%nat →
    ∃ s', while fuel (λ st, sl_t st <? Z.of_nat n - 2)
            (λ st, c ← accumulate im (mean_of a) 2 (sl_t st) (sl_accs st);
                   mret (Sliding (sl_t st + 1) c))
            (Sliding t c) s
          = (Return (Sliding (Z.of_nat n - 2)
                       (set_ab (foldl (λ acc j, ew2 f_add acc (lag1_product a j))
                                      (ab c) (seq (Z.to_nat t) k)) c)), s')
          ∧ heap s' = heap s.
Proof.
  induction k as [| k IH]; intros t c fuel s Hl Hsh Ht Htk Hfuel.
  - exists s. split; [| done]. rewrite while_done by (simpl; lia).
    unfold mret, M_ret. replace t with (Z.of_nat n - 2) by lia.
    by destruct c.
  - destruct fuel as [| fuel]; [lia |].
    rewrite while_step by (simpl; lia).
    rewrite run_bind. unfold tick at 1.
    rewrite run_bind, run_bind.
    rewrite (accumulate_order2 im _ t c _ a n sh) by (done || lia).
    unfold mret at 1, M_ret at 1. cbn [sl_t].
    change (ew2 f_mul (ew2 f_sub (frame a (Z.to_nat t)) (mean_of a))
              (ew2 f_sub (frame a (S (Z.to_nat t))) (mean_of a)))
      with (lag1_product a (Z.to_nat t)).
    destruct (IH (t + 1)
                (set_ab (ew2 f_add (ab c) (lag1_product a (Z.to_nat t))) c)
                fuel (Machine (heap s) (S (iters s))))
      as (s' & Hrun & Hheap); [done | done | lia | lia | lia |].
    exists s'. split; [| done].
    rewrite Hrun. do 3 f_equal.
    rewrite Z2Nat.inj_add, Nat.add_1_r by lia. simpl. by destruct c.
Qed.

Lemma cumulant2_value (fuel : nat) (l : loc) (s : machine F)
    (a : ndarray F) (n h w : nat) :
  heap s !! l = Some a → shape a = [n; h; w] → (n - 2 ≤ fuel)%nat → (2 ≤ n)%nat →
  fst (run (calculate_SRRF_temporal_correlations fuel l 2 false) s)
  = Return (PyArr
      (ew1 (λ x, f_div x (f_of_Z (Z.of_nat n)))
         (ew1 f_absolute
            (foldl (λ acc j, ew2 f_add acc (lag1_product a j))
                   (np_zeros [h; w]) (seq 0 (n - 2)))))).
Proof.
  intros Hl Hsh Hfuel Hn.
  rewrite (srrf_cumulant _ _ _ _ _ a) by (done || (unfold ndim; by rewrite Hsh)).
  unfold run, calculate_acrf_.
  rewrite run_bind, (run_copy _ a) by apply lookup_fresh.
  rewrite run_bind, (run_load _ a) by apply lookup_fresh.
  unfold unpack3, np_mean0. rewrite Hsh.
  rewrite bind_lift_return. simpl. rewrite bind_lift_return.
  rewrite run_bind.
  destruct (sliding2_loop (length (heap s ++ [a])) a n [h; w] (n - 2) 0
              (accs_zeros h w) fuel
              (Machine ((heap s ++ [a]) ++ [a]) (iters s)))
    as (s' & Hrun & _);
    [apply lookup_fresh | done | lia | lia | done |].
  simpl in Hrun. simpl. rewrite Hrun. reflexivity.
Qed.

Lemma np_mean0_nonscalar (a : ndarray F) (n : nat) (sh : list nat) :
  shape a = n :: sh → np_mean0 a = Return (mean_of a).
Proof. intros Hsh. unfold np_mean0. by rewrite Hsh. Qed.

Lemma tac2_value (l : loc) (s : machine F) (a : ndarray F) (n h w : nat) :
  heap s !! l = Some a → wf a → shape a = [S (S n); h; w] →
  fst (run (calculate_eSRRF_temporal_correlations l "TAC2") s)
  = Return (PyArr
      (ew1 (λ x, f_div x (f_of_Z (Z.of_nat (S n))))
         (foldl (ew2 f_add) (lag1_product a 0)
                (lag1_product a <$> seq 1 n)))).
Proof.
  intros Hl Hwf Hsh. rewrite (esrrf_entry _ _ _ _ Hl). simpl.
  unfold calculate_tac2.
  rewrite run_bind, (run_load _ a) by apply lookup_fresh.
  rewrite (np_mean0_nonscalar a _ _ Hsh), bind_lift_return.
  set (P := ew2 f_mul _ _).
  assert (HshP : shape P = [S n; h; w]).
  { unfold P, ew2, slice_init, sub_frames. simpl. by rewrite Hsh. }
  rewrite (np_mean0_nonscalar P _ _ HshP), bind_lift_return.
  unfold mret, M_ret. simpl. do 2 f_equal.
  unfold mean_of, len0. rewrite HshP. simpl hd. f_equal.
  unfold np_sum0, reduce0, frames, len0. rewrite HshP. simpl hd.
  rewrite <- cons_seq, fmap_cons.
  assert (Hfr : ∀ k, (k < S n)%nat → frame P k = lag1_product a k).
  { intros k Hk. apply (frame_lagged a (S (S n)) k [h; w]); [done.. | lia]. }
  rewrite Hfr by lia. f_equal.
  apply list_eq. intros i. rewrite !list_lookup_fmap.
  destruct (decide (i < n)%nat) as [Hi | Hi].
  - rewrite lookup_seq_lt by done. simpl. f_equal. apply Hfr. lia.
  - by rewrite lookup_seq_ge by lia.
Qed.

End Values.

(** ** TAC2 against CUMULANT2 *)

Section Proportionality.
Context {F : Type} `{Dtype F}.

(** C6, as the code has it.  For a stack of [T ≥ 2] frames both maps
    are computed from the same lag-1 products
    [P t = (im[t] - mean) * (im[t+1] - mean)] of the centred frames, in
    the arithmetic of the arrays and in the order the code adds them:
    CUMULANT2 is the magnitude of [0 + P 0 + ... + P (T-3)] over [T],
    TAC2 is the signed [P 0 + ... + P (T-2)] over [T - 1].  CUMULANT2
    leaves the last product out, drops the sign and divides by one
    more. *)
Theorem tac2_cumulant2_relation (fuel : nat) (l : loc) (s : machine F)
    (a : ndarray F) (n h w : nat) :
  heap s !! l = Some a → wf a → shape a = [S (S n); h; w] →
  (n ≤ fuel)%nat →
  fst (run (calculate_SRRF_temporal_correlations fuel l 2 false) s)
  = Return (PyArr
      (ew1 (λ x, f_div x (f_of_Z (Z.of_nat (S (S n)))))
         (ew1 f_absolute
            (foldl (λ acc t, ew2 f_add acc (lag1_product a t))
                   (np_zeros [h; w]) (seq 0 n)))))
  ∧ fst (run (calculate_eSRRF_temporal_correlations l "TAC2") s)
    = Return (PyArr
        (ew1 (λ x, f_div x (f_of_Z (Z.of_nat (S n))))
           (foldl (ew2 f_add) (lag1_product a 0)
                  (lag1_product a <$> seq 1 n)))).
Proof.
  intros Hl Hwf Hsh Hfuel. split.
  - rewrite (cumulant2_value fuel l s a (S (S n)) h w) by (done || lia).
    by replace (S (S n) - 2)%nat with n by lia.
  - by apply (tac2_value l s a n h w).
Qed.

End Proportionality.

(** C6 at three 1x1 frames [0, 0, 3]. *)
Lemma tac2_cumulant2_relation_witness :
  fst (run (calculate_SRRF_temporal_correlations 1 0%nat 2 false)
           (caller (NdArray [3; 1; 1]%nat (pixels [0; 0; 3]))))
  = Return (PyArr
      (ew1 (λ x, f_div x (f_of_Z (Z.of_nat 3)))
         (ew1 f_absolute
            (foldl (λ acc t, ew2 f_add acc
                       (lag1_product (NdArray [3; 1; 1]%nat (pixels [0; 0; 3])) t))
                   (np_zeros [1; 1]%nat) (seq 0 1)))))
  ∧ fst (run (calculate_eSRRF_temporal_correlations 0%nat "TAC2")
             (caller (NdArray [3; 1; 1]%nat (pixels [0; 0; 3]))))
    = Return (PyArr
        (ew1 (λ x, f_div x (f_of_Z (Z.of_nat 2)))
           (foldl (ew2 f_add)
                  (lag1_product (NdArray [3; 1; 1]%nat (pixels [0; 0; 3])) 0)
                  (lag1_product (NdArray [3; 1; 1]%nat (pixels [0; 0; 3]))
                     <$> seq 1 1)))).
Proof.
  apply (tac2_cumulant2_relation (F := Qc) 1 0%nat
           (caller (NdArray [3; 1; 1]%nat (pixels [0; 0; 3])))
           (NdArray [3; 1; 1]%nat (pixels [0; 0; 3])) 1 1 1);
    [reflexivity | reflexivity | reflexivity | lia].
Defined.

(** C6, as the specification has it, fails: on the frames [0, 0, 3] the
    CUMULANT2 pixel is positive and the TAC2 pixel negative, so no
    positive factor takes one map to the other. *)
Lemma tac2_cumulant2_not_proportional :
  ∃ cum tac : ndarray Qc,
    fst (run (calculate_SRRF_temporal_correlations 3 0%nat 2 false)
             (caller (NdArray [3; 1; 1]%nat (pixels [0; 0; 3]))))
      = Return (PyArr cum)
    ∧ fst (run (calculate_eSRRF_temporal_correlations 0%nat "TAC2")
               (caller (NdArray [3; 1; 1]%nat (pixels [0; 0; 3]))))
      = Return (PyArr tac)
    ∧ ¬ ∃ k : Qc, (0 < k)%Qc ∧ data cum = (λ y, k * y)%Qc <$> data tac.
Proof.
  eexists _, _. split; [| split].
  - vm_compute. reflexivity.
  - vm_compute. reflexivity.
  - intros (k & Hk & Heq). cbn [data fmap list_fmap] in Heq.
    apply (f_equal (λ l, default 0%Qc (head l))) in Heq. cbn [head default] in Heq.
    unfold id in Heq.
    match type of Heq with ?x = (k * ?y)%Qc =>
      assert (Hx : (0 < x)%Qc) by (by vm_compute);
      assert (Hy : (y < 0)%Qc) by (by vm_compute);
      assert (Hky : (k * y < 0)%Qc)
    end.
    { rewrite <- (Qcmult_0_r k). by apply Qcmult_lt_mono_pos_l. }
    rewrite <- Heq in Hky.
    by apply (irreflexivity Qclt _ (Qclt_trans _ _ _ Hx Hky)).
Qed.

(** ** The peak locator: what is built and what is called *)

Lemma bind_return_inv {St A B} (m : M St A) (k : A → M St B) (s s' : St)
    (b : B) :
  (m ≫= k) s = (Return b, s') →
  ∃ a s1, m s = (Return a, s1) ∧ k a s1 = (Return b, s').
Proof.
  unfold mbind, M_bind. destruct (m s) as [[a | e |] s1]; [eauto | done..].
Qed.

Lemma lift_return_inv {St A} (o : outcome A) (s s' : St) (a : A) :
  lift o s = (Return a, s') → o = Return a ∧ s' = s.
Proof. unfold lift. by intros [= -> ->]. Qed.

Section PeakLocator.
Context {F : Type} `{Dtype F} {interp : Type}.
Variable interp2d : ndarray F → ndarray F → ndarray F → outcome interp.
Variable griddata : list (Z * Z) → ndarray F → F * F → string → outcome F.
Variable nelder_mead : F * F → nat → Shift.search (F * F) F.

Lemma objective_trace (self : Shift.GetMaxOptimizer F interp) (coords : F * F)
    (t t' : Shift.trace) (v : F) :
  Shift.get_interpolated_px_value griddata self coords t = (Return v, t') →
  t' = t ++ [Shift.GriddataBuilt].
Proof.
  unfold Shift.get_interpolated_px_value.
  intros (h & t1 & (_ & ->)%lift_return_inv & Hr)%bind_return_inv.
  apply bind_return_inv in Hr as (w & t2 & (_ & ->)%lift_return_inv & Hr).
  apply bind_return_inv in Hr as (x & t3 & (_ & ->)%lift_return_inv & Hr).
  apply bind_return_inv in Hr as ([] & t4 & Hlog & Hr).
  unfold Shift.log in Hlog. unfold mret, M_ret in Hr. by simplify_eq.
Qed.




End PeakLocator.


(** ** Every run ends *)

Lemma Qc_div_this (x : Qc) (o : Z) :
  (this (x / Qc_of_Z o)%Qc == this x / inject_Z o)%Q.
Proof.
  unfold Qcdiv, Qcmult, Qcinv. simpl. by rewrite !Qred_correct.
Qed.

Lemma Qc_minus_this (x y : Qc) : (this (x - y)%Qc == this x - this y)%Q.
Proof.
  unfold Qcminus, Qcplus, Qcopp. simpl. by rewrite !Qred_correct.
Qed.

(** Dividing the time-point count by an order of at least 2 lowers its
    integer part, as long as the count exceeds the order. *)
Lemma binned_floor_falls (nb : Qc) (order : Z) :
  2 ≤ order → (Qc_of_Z order < nb)%Qc →
  Qfloor (nb / Qc_of_Z order)%Qc < Qfloor nb.
Proof.
  intros Ho Hlt. unfold Qclt in Hlt. cbn [this Qc_of_Z] in Hlt.
  rewrite (Qfloor_comp _ _ (Qc_div_this nb order)).
  set (q := this nb) in *. set (f := Qfloor q).
  assert (Hf : 2 ≤ f).
  { rewrite <- (Qfloor_Z 2). apply Qfloor_resp_le.
    apply Qlt_le_weak, Qle_lt_trans with (inject_Z order); [| done].
    rewrite <- Zle_Qle. lia. }
  assert (Ho' : (0 < inject_Z order)%Q) by (rewrite <- (Zlt_Qlt 0); lia).
  assert (Hq : (q / inject_Z order < inject_Z f)%Q).
  { apply Qlt_shift_div_r; [done |]. rewrite <- inject_Z_mult.
    apply Qlt_le_trans with (inject_Z (f + 1)); [apply Qlt_floor |].
    rewrite <- Zle_Qle. nia. }
  rewrite Zlt_Qlt. eapply Qle_lt_trans; [apply Qfloor_le | done].
Qed.

Lemma binned_stays_below (nb : Qc) (order n : Z) :
  1 ≤ order → (Qc_of_Z order < nb)%Qc → (nb ≤ Qc_of_Z n)%Qc →
  (nb / Qc_of_Z order ≤ Qc_of_Z n)%Qc.
Proof.
  intros Ho Hlt Hle. unfold Qclt, Qcle in *.
  rewrite Qc_div_this. cbn [this Qc_of_Z] in *.
  assert (Ho' : (1 <= inject_Z order)%Q) by (rewrite <- (Zle_Qle 1); lia).
  apply Qle_shift_div_r; [lra |].
  assert (Hn : (0 <= inject_Z n)%Q) by lra. nra.
Qed.

Lemma binning_turn (nb : Qc) (order t : Z) :
  (Qc_of_Z t < nb - Qc_of_Z order)%Qc →
  t < Qceiling (nb - Qc_of_Z order)%Qc.
Proof.
  intros Hlt. unfold Qclt in Hlt.
  change (this (Qc_of_Z t)) with (inject_Z t) in Hlt.
  rewrite Zlt_Qlt. eapply Qlt_le_trans; [exact Hlt | apply Qle_ceiling].
Qed.

Lemma binning_turns (nb : Qc) (order n : Z) :
  0 ≤ order → (nb ≤ Qc_of_Z n)%Qc →
  Qceiling (nb - Qc_of_Z order)%Qc ≤ n.
Proof.
  intros Ho Hle. unfold Qcle in Hle.
  assert (Ho' : (0 <= inject_Z order)%Q) by (rewrite <- (Zle_Qle 0); lia).
  pose proof (Qc_minus_this nb (Qc_of_Z order)) as Hm.
  cbn [this Qc_of_Z] in Hle, Hm.
  rewrite <- (Qceiling_Z n). apply Qceiling_resp_le. rewrite Hm. lra.
Qed.

Section Termination.
Context {F : Type} `{Dtype F}.

Local Abbreviation any := (λ _, True).

Lemma triple_ends {St A} (I : St → Prop) (m : M St A) (R : A → Prop)
    (E : exn → Prop) (s : St) :
  triple I m R E False → I s → fst (m s) ≠ Diverge.
Proof.
  intros Hm Hs. generalize (Hm s Hs).
  by destruct (m s) as [[a | e |] s']; simpl; [intros _ | intros _ | intros []].
Qed.

(** The window loop, from [t = 0] up to [n - order]. *)
Lemma sliding_loop_ends (fuel : nat) (im : loc) (mean : ndarray F)
    (order : Z) (n : nat) (c : accs) :
  0 ≤ order → (n ≤ fuel)%nat →
  triple (extends []) 
    (while fuel (λ st, sl_t st <? Z.of_nat n - order)
       (λ st, c ← accumulate im mean order (sl_t st) (sl_accs st);
              mret (Sliding (sl_t st + 1) c))
       (Sliding 0 c))
    any library_error False.
Proof.
  intros Ho Hfuel.
  apply (triple_while_measure [] False
           (λ st, Z.to_nat (Z.of_nat n - order - sl_t st)) any).
  - intros st _ Hc. apply Z.ltb_lt in Hc. cbv beta. lia.
  - intros st _ Hc. apply Z.ltb_lt in Hc.
    eapply triple_bind; [apply triple_accumulate |]. intros c' _.
    apply triple_ret. split; [done |]. cbn [sl_t]. lia.
  - done.
  - cbn [sl_t]. lia.
Qed.

(** The binning loops: the inner one walks [t] up to the binned count
    less the order, the outer one divides the count by the order. *)
Lemma binning_loop_ends (fuel : nat) (im : loc) (mean : ndarray F)
    (order : Z) (n h w : nat) (c : accs) (out_array : ndarray F) :
  2 ≤ order → (n ≤ fuel)%nat →
  triple (extends [])
    (while fuel (λ st, Qc_ltb (Qc_of_Z order) (n_binned_time_points st))
       (λ st,
          let nb := n_binned_time_points st in
          let c := set_ab (np_zeros [h; w]) (bn_accs st) in
          st' ← while fuel
                  (λ st', Qc_ltb (Qc_of_Z (b_t st')) (nb - Qc_of_Z order))
                  (λ st',
                     let t := b_t st' in
                     let tbin := t * order in
                     c ← accumulate im mean order t (b_accs st');
                     assign im t (np_zeros [h; w]);;
                     (if Qc_ltb (Qc_of_Z tbin) nb then
                        for_ (range (order - 1)) (λ _ _t,
                          x ← at_ im t;
                          y ← at_ im (tbin + _t);
                          assign im t
                            (ew2 f_add x
                               (ew1 (λ v, f_div v (f_of_Z order)) y)))
                          ()
                      else mret ());;
                     mret (Binning (t + 1) tbin c))
                  (Binning 0 (tbin st) c);
          let out_array := finish order nb (b_accs st') in
          if decide (order = 0) then raise ZeroDivisionError
          else mret (Binned (nb / Qc_of_Z order)%Qc (b_tbin st')
                            (b_accs st') out_array))
       (Binned (Qc_of_Z (Z.of_nat n)) 0 c out_array))
    any library_error False.
Proof.
  intros Ho Hfuel.
  eapply triple_weaken; [| done | done].
  apply (triple_while_measure [] False
           (λ st, Z.to_nat (Qfloor (n_binned_time_points st)))
           (λ st, (n_binned_time_points st ≤ Qc_of_Z (Z.of_nat n))%Qc)).
  - intros st _ Hc. apply bool_decide_eq_true in Hc. cbv beta.
    pose proof (binned_floor_falls _ _ Ho Hc).
    assert (0 ≤ Qfloor (n_binned_time_points st / Qc_of_Z order)%Qc); [| lia].
    rewrite <- (Qfloor_Z 0). apply Qfloor_resp_le.
    rewrite Qc_div_this. apply Qle_shift_div_l.
    + rewrite <- (Zlt_Qlt 0). lia.
    + unfold Qclt in Hc.
      change (this (Qc_of_Z order)) with (inject_Z order) in Hc.
      assert (0 <= inject_Z order)%Q by (rewrite <- (Zle_Qle 0); lia).
      change (inject_Z 0) with 0%Q. lra.
  - intros st Hst Hc. apply bool_decide_eq_true in Hc.
    eapply triple_bind with (R1 := any).
    + eapply triple_weaken; [| done | done].
      apply (triple_while_measure [] False
               (λ st', Z.to_nat (Qceiling (n_binned_time_points st
                                            - Qc_of_Z order)%Qc - b_t st'))
               any).
      * intros st' _ Hc'. apply bool_decide_eq_true, binning_turn in Hc'.
        cbv beta. lia.
      * intros st' _ Hc'. apply bool_decide_eq_true, binning_turn in Hc'.
        eapply triple_bind; [apply triple_accumulate |]. intros c' _.
        eapply triple_bind; [apply triple_assign; simpl; lia |]. intros _ _.
        eapply triple_bind with (R1 := any).
        { destruct (Qc_ltb _ _); [| by apply triple_ret].
          apply triple_for. intros [] _t.
          eapply triple_bind; [apply triple_at |]. intros x _.
          eapply triple_bind; [apply triple_at |]. intros y _.
          apply triple_assign. simpl. lia. }
        intros _ _. apply triple_ret. split; [done |]. cbn [b_t]. lia.
      * done.
      * cbn [b_t]. pose proof (binning_turns _ order _ ltac:(lia) Hst). lia.
    + intros st' _. simpl. destruct (decide (order = 0)); [lia |].
      apply triple_ret. cbn [n_binned_time_points]. split.
      * apply binned_stays_below; (done || lia).
      * pose proof (binned_floor_falls _ _ Ho Hc).
        assert (0 ≤ Qfloor (n_binned_time_points st / Qc_of_Z order)%Qc); [| lia].
        rewrite <- (Qfloor_Z 0). apply Qfloor_resp_le.
        rewrite Qc_div_this. apply Qle_shift_div_l.
        -- rewrite <- (Zlt_Qlt 0). lia.
        -- unfold Qclt in Hc.
      change (this (Qc_of_Z order)) with (inject_Z order) in Hc.
           assert (0 <= inject_Z order)%Q by (rewrite <- (Zle_Qle 0); lia).
           change (inject_Z 0) with 0%Q. lra.
  - cbn [n_binned_time_points]. apply Qcle_refl.
  - cbn [n_binned_time_points]. change (this (Qc_of_Z (Z.of_nat n))) with (inject_Z (Z.of_nat n)).
    rewrite Qfloor_Z. lia.
Qed.

Lemma acrf_ends (fuel : nat) (rad_array : loc) (order : Z) (lag : bool)
    (s : machine F) (a : ndarray F) :
  heap s !! rad_array = Some a → 2 ≤ order → (len0 a ≤ fuel)%nat →
  fst (run (calculate_acrf_ fuel rad_array order lag) s) ≠ Diverge.
Proof.
  intros Hl Ho Hfuel. unfold run, calculate_acrf_.
  rewrite run_bind, (run_copy _ _ _ Hl).
  rewrite run_bind, (run_load _ a) by apply lookup_fresh.
  unfold unpack3.
  destruct (shape a) as [| n [| h [| w [| ? ?]]]] eqn:Hsh; try done.
  rewrite bind_lift_return. cbv beta iota.
  rewrite (np_mean0_nonscalar a _ _ Hsh), bind_lift_return.
  unfold len0 in Hfuel. rewrite Hsh in Hfuel. simpl in Hfuel.
  destruct lag; cbn [negb]; cbv iota.
  - apply (triple_ends (extends []) _ any library_error); [| apply prefix_nil].
    eapply triple_bind; [by apply binning_loop_ends |].
    intros st _. by apply triple_ret.
  - apply (triple_ends (extends []) _ any library_error); [| apply prefix_nil].
    eapply triple_bind; [apply sliding_loop_ends; (done || lia) |].
    intros st _. by apply triple_ret.
Qed.

(** With as much fuel as the stack has frames, the entry points end for
    every kind of the two families: they return or raise. *)
Lemma calculations_end (fuel : nat) (im : loc) (order : Z) (lag : bool)
    (correlation : string) (s : machine F) :
  -1 ≤ order →
  (∀ a, heap s !! im = Some a → (len0 a ≤ fuel)%nat) →
  fst (run (calculate_SRRF_temporal_correlations fuel im order lag) s)
    ≠ Diverge
  ∧ fst (run (calculate_eSRRF_temporal_correlations im correlation) s)
    ≠ Diverge.
Proof.
  intros Ho Hfuel. split.
  - destruct (heap s !! im) as [a |] eqn:Hl.
    + rewrite (srrf_entry _ _ _ _ _ _ Hl). cbv zeta.
      assert (Hlib : ∀ m : M (machine F) (pyval F),
                triple (extends []) m any library_error False →
                fst (m (Machine (heap s ++ [a]) (iters s))) ≠ Diverge).
      { intros m Hm. apply (triple_ends _ _ _ _ _ Hm), prefix_nil. }
      destruct (negb _); [done |].
      destruct (Z.eqb_spec order 0).
      { apply Hlib. eapply triple_bind; [apply triple_amax0 |].
        intros; by apply triple_ret. }
      destruct (Z.eqb_spec order 1).
      { apply Hlib. eapply triple_bind; [apply triple_mean0 |].
        intros; by apply triple_ret. }
      destruct (Z.eqb_spec order (-1)); [apply Hlib, triple_pairwise |].
      apply (acrf_ends fuel (length (heap s)) order lag
               (Machine (heap s ++ [a]) (iters s)) a);
        [apply lookup_fresh | lia | by apply Hfuel].
    + unfold run, calculate_SRRF_temporal_correlations, np_array.
      rewrite !run_bind. unfold load. by rewrite Hl.
  - unfold run.
    apply (triple_ends (extends []) _ any (λ e, e ≠ AssertionError));
      [apply triple_eSRRF | apply prefix_nil].
Qed.

End Termination.

(** ** The peak locator: what is left to scipy *)

Section LeftToScipy.
Context {F : Type} `{Dtype F} {interp : Type}.
Variable interp2d : ndarray F → ndarray F → ndarray F → outcome interp.
Variable interp2d_call : interp → F → F → outcome F.
Variable griddata : list (Z * Z) → ndarray F → F * F → string → outcome F.
Variable nelder_mead : F * F → nat → Shift.search (F * F) F.

(** The constructor hands [interp2d] the row indices as [x], the width
    itself, a 0-d array, as [y], and the flattened surface as [z]; an
    exception of [interp2d] on these arguments is the outcome of
    [locate_max]. *)
Lemma constructor_error_propagates (surface : ndarray F) (h w : nat)
    (e : exn) (t : Shift.trace) :
  shape surface = [h; w] →
  interp2d (NdArray [h] (f_of_Z <$> range (Z.of_nat h)))
           (NdArray [] [f_of_Z (Z.of_nat w)])
           (Shift.reshape1 surface (h * w))
  = Raise e →
  run (Shift.locate_max interp2d griddata nelder_mead surface) t
  = (Raise e, t).
Proof.
  intros Hsh He. unfold run, Shift.locate_max, Shift.init, Shift.shape_at.
  rewrite Hsh. cbn [lookup list_lookup].
  unfold mbind, M_bind, lift. by rewrite He.
Qed.

(** The two objectives answer from different library calls: one from a
    [griddata] interpolation with method cubic of all grid points, the
    other from the interpolant of the constructor. *)
Lemma objectives_differ_in_calls (self : Shift.GetMaxOptimizer F interp)
    (coords : F * F) (t t1 t2 : Shift.trace) (v1 v2 : F) :
  Shift.get_interpolated_px_value griddata self coords t = (Return v1, t1) →
  Shift.get_interpolated_px_value_optimized interp2d_call self coords t
  = (Return v2, t2) →
  t1 = t ++ [Shift.GriddataBuilt] ∧ t2 = t ++ [Shift.Interp2dCalled]
  ∧ (∃ y, interp2d_call (Shift.interpolator self) (fst coords) (snd coords)
          = Return y ∧ v2 = f_neg y).
Proof.
  intros H1 H2. split; [by apply objective_trace in H1 |].
  unfold Shift.get_interpolated_px_value_optimized in H2.
  apply bind_return_inv in H2 as (y & ? & (Hy & ->)%lift_return_inv & H2).
  apply bind_return_inv in H2 as ([] & ? & Hlog & H2).
  unfold Shift.log in Hlog. unfold mret, M_ret in H2. simplify_eq. eauto.
Qed.

(** [get_max] returns the point at which the minimiser stopped and does
    not look at its success flag. *)
Lemma get_max_ignores_success (self : Shift.GetMaxOptimizer F interp)
    (x0 x : F * F) (ok : bool) (k w : nat) (t : Shift.trace) :
  Shift.argmax (Shift.slice_ccm self) = Return k →
  Shift.shape_at (Shift.slice_ccm self) 1 = Return w →
  (∀ x0 maxiter, nelder_mead x0 maxiter = Shift.Stop x ok) →
  run (Shift.get_max griddata nelder_mead self) t = (Return x, t).
Proof.
  intros Hk Hw Hstop. unfold run, Shift.get_max, Shift.minimize.
  rewrite Hk, Hw. unfold mbind, M_bind, lift. by rewrite Hstop.
Qed.

End LeftToScipy.


(** * Further properties of the code *)

(** ** Reading and writing a stack of known shape *)

Lemma triple_returns {St A} (I : St → Prop) (m : M St A) (R : A → Prop)
    (s : St) :
  triple I m R (λ _, False) False → I s → ∃ a, fst (m s) = Return a ∧ R a.
Proof.
  intros Hm Hs. generalize (Hm s Hs).
  destruct (m s) as [[a | e |] s']; simpl;
    [intros [_ Hr]; eauto | by intros [_ []] ..].
Qed.

Lemma triple_must_raise {St A} (I : St → Prop) (m : M St A) (e0 : exn)
    (s : St) :
  triple I m (λ _, False) (λ e, e = e0) False → I s → fst (m s) = Raise e0.
Proof.
  intros Hm Hs. generalize (Hm s Hs).
  destruct (m s) as [[a | e |] s']; simpl;
    [by intros [_ []] | | by intros [_ []]].
  by intros [_ ->].
Qed.

Lemma range_nonpos (n : Z) : n ≤ 0 → range n = [].
Proof.
  intros Hn. unfold range, range2.
  by replace (Z.to_nat (n - 0)) with 0%nat by lia.
Qed.

Section StackInvariant.
Context {F : Type} `{Dtype F}.
Variable im : loc.
Variable n : nat.
Variable fsh : list nat.
Variable E : exn → Prop.
Variable D : Prop.

Local Abbreviation I := (holds_stack (F := F) im (n :: fsh)).
Local Abbreviation any := (λ _, True).

Lemma stack_tick : triple I tick any E D.
Proof. intros s Hs. by split. Qed.

(** [im[i]] returns a frame or raises [IndexError]. *)
Lemma stack_at (i : Z) :
  E IndexError →
  triple I (at_ im i) (λ x : ndarray F, shape x = fsh ∧ 0 ≤ i + Z.of_nat n
                                        ∧ i < Z.of_nat n) E D.
Proof.
  intros HE s Hs. pose proof Hs as (a & Hl & Hsh). unfold at_.
  rewrite run_bind, (run_load _ _ _ Hl). unfold lift, getitem, py_index.
  rewrite Hsh. repeat case_decide; (split; [done |]); try done.
  - split; [by rewrite (shape_frame a n _ fsh) | lia].
  - split; [by rewrite (shape_frame a n _ fsh) | lia].
Qed.

Lemma stack_at_in (i : Z) :
  0 ≤ i < Z.of_nat n →
  triple I (at_ im i) (λ x : ndarray F, shape x = fsh) E D.
Proof.
  intros Hi s Hs. pose proof Hs as (a & Hl & Hsh).
  rewrite (at_inside im s a n fsh) by done.
  split; [done |]. by apply (shape_frame a n).
Qed.

Lemma stack_at_out (i : Z) (R : ndarray F → Prop) :
  Z.of_nat n ≤ i → E IndexError → triple I (at_ im i) R E D.
Proof.
  intros Hi HE s Hs. pose proof Hs as (a & Hl & Hsh). unfold at_.
  rewrite run_bind, (run_load _ _ _ Hl). unfold lift, getitem, py_index.
  rewrite Hsh. by rewrite !decide_False by lia.
Qed.

Lemma stack_assign_in (i : Z) (v : ndarray F) :
  0 ≤ i < Z.of_nat n → shape v = fsh →
  triple I (assign im i v) any E D.
Proof.
  intros Hi Hv s Hs. pose proof Hs as (a & Hl & Hsh). unfold assign.
  rewrite run_bind, (run_load _ _ _ Hl). unfold setitem.
  rewrite Hsh, (py_index_inside _ _ Hi), decide_True by done.
  rewrite bind_lift_return. unfold store. rewrite Hl. split; [| done].
  eexists. split.
  - cbn [heap]. apply list_lookup_insert_eq. by eapply lookup_lt_Some.
  - done.
Qed.

Lemma stack_while {S} (mu : S → nat) (Rinv : S → Prop) (fuel : nat)
    (cond : S → bool) (body : S → M (machine F) S) (st : S) :
  (∀ st, Rinv st → cond st = true → (0 < mu st)%nat) →
  (∀ st, Rinv st → cond st = true →
     triple I (body st) (λ st', Rinv st' ∧ (mu st' < mu st)%nat) E D) →
  Rinv st → (mu st ≤ fuel)%nat →
  triple I (while fuel cond body st)
    (λ st', Rinv st' ∧ cond st' = false) E D.
Proof.
  intros Hpos Hbody. revert st.
  induction fuel as [| fuel IH]; intros st Hst Hmu; simpl.
  - destruct (cond st) eqn:Hc; [| by apply triple_ret].
    specialize (Hpos st Hst Hc). lia.
  - destruct (cond st) eqn:Hc; [| by apply triple_ret].
    eapply triple_bind; [apply stack_tick |]. intros _ _.
    eapply triple_bind; [by apply Hbody |]. intros st' [Hst' Hlt].
    apply IH; [done | lia].
Qed.

Lemma stack_for {S} (Rinv : S → Prop) (xs : list Z)
    (body : S → Z → M (machine F) S) (st : S) :
  (∀ st x, x ∈ xs → Rinv st → triple I (body st x) Rinv E D) →
  Rinv st → triple I (for_ xs body st) Rinv E D.
Proof.
  revert st. induction xs as [| x xs IH]; intros st Hbody Hst; simpl.
  - by apply triple_ret.
  - eapply triple_bind; [apply Hbody; [left | done] |]. intros st' Hst'.
    apply IH; [| done]. intros st'' y Hy. apply Hbody. by right.
Qed.

(** The accumulation statements read the frames [t .. t + order - 1]. *)
Lemma stack_accumulate_in (mean : ndarray F) (order t : Z) (c : accs) :
  0 ≤ t → t + 1 < Z.of_nat n →
  (order = 3 → t + 2 < Z.of_nat n) → (order = 4 → t + 3 < Z.of_nat n) →
  accs_shaped fsh c →
  triple I (accumulate im mean order t c) (accs_shaped fsh) E D.
Proof.
  intros Ht0 Ht1 H3 H4 (Hab & Habc & Habcd). unfold accumulate.
  eapply triple_bind; [apply stack_at_in; lia |]. intros x0 _.
  eapply triple_bind; [apply stack_at_in; lia |]. intros x1 _.
  eapply triple_bind with (R1 := accs_shaped fsh).
  - destruct (Z.eqb_spec order 3); [| by apply triple_ret].
    eapply triple_bind; [apply stack_at_in; lia |]. intros y0 _.
    eapply triple_bind; [apply stack_at_in; lia |]. intros y1 _.
    eapply triple_bind; [apply stack_at_in; lia |]. intros y2 _.
    by apply triple_ret.
  - intros c' (Hab' & Habc' & Habcd').
    destruct (Z.eqb_spec order 4); [| by apply triple_ret].
    eapply triple_bind; [apply stack_at_in; lia |]. intros y0 _.
    eapply triple_bind; [apply stack_at_in; lia |]. intros y1 _.
    eapply triple_bind; [apply stack_at_in; lia |]. intros y2 _.
    eapply triple_bind; [apply stack_at_in; lia |]. intros y3 _.
    by apply triple_ret.
Qed.

Lemma stack_accumulate_runs (mean : ndarray F) (order t : Z) (c : accs) :
  0 ≤ t → t + 1 < Z.of_nat n →
  (order = 3 → t + 2 < Z.of_nat n) → (order = 4 → t + 3 < Z.of_nat n) →
  triple I (accumulate im mean order t c) any E D.
Proof.
  intros Ht0 Ht1 H3 H4. unfold accumulate.
  eapply triple_bind; [apply stack_at_in; lia |]. intros x0 _.
  eapply triple_bind; [apply stack_at_in; lia |]. intros x1 _.
  eapply triple_bind with (R1 := any).
  - destruct (Z.eqb_spec order 3); [| by apply triple_ret].
    eapply triple_bind; [apply stack_at_in; lia |]. intros y0 _.
    eapply triple_bind; [apply stack_at_in; lia |]. intros y1 _.
    eapply triple_bind; [apply stack_at_in; lia |]. intros y2 _.
    by apply triple_ret.
  - intros c' _.
    destruct (Z.eqb_spec order 4); [| by apply triple_ret].
    eapply triple_bind; [apply stack_at_in; lia |]. intros y0 _.
    eapply triple_bind; [apply stack_at_in; lia |]. intros y1 _.
    eapply triple_bind; [apply stack_at_in; lia |]. intros y2 _.
    eapply triple_bind; [apply stack_at_in; lia |]. intros y3 _.
    by apply triple_ret.
Qed.

(** At the last frame they read past the end. *)
Lemma stack_accumulate_out (mean : ndarray F) (order t : Z) (c : accs)
    (R : accs → Prop) :
  0 ≤ t → Z.of_nat n ≤ t + 1 → E IndexError →
  triple I (accumulate im mean order t c) R E D.
Proof.
  intros Ht0 Ht1 HE. unfold accumulate.
  eapply triple_bind; [by apply stack_at |]. intros x0 _.
  eapply triple_bind with (R1 := λ _, False);
    [by apply stack_at_out; [lia |] | by intros ? []].
Qed.

Lemma shape_finish (order : Z) (q : Qc) (c : accs) :
  accs_shaped fsh c → shape (finish order q c) = fsh.
Proof.
  intros (Hab & Habc & Habcd). unfold finish.
  by destruct (order =? 3), (order =? 4).
Qed.

End StackInvariant.


(** ** Cumulants: when the computation returns and when it cannot *)

Lemma binning_index (nb : Qc) (order n t : Z) :
  (nb ≤ Qc_of_Z n)%Qc → (Qc_of_Z t < nb - Qc_of_Z order)%Qc → t < n - order.
Proof.
  intros Hle Hlt. apply Z2Qc_inj_lt. rewrite Z2Qc_inj_sub.
  eapply Qclt_le_trans; [exact Hlt |]. by apply Qcplus_le_mono_r.
Qed.

Lemma binning_source (nb : Qc) (n t : Z) :
  (nb ≤ Qc_of_Z n)%Qc → (Qc_of_Z t < nb)%Qc → t < n.
Proof.
  intros Hle Hlt. apply Z2Qc_inj_lt. by eapply Qclt_le_trans.
Qed.

Section CumulantOutcomes.
Context {F : Type} `{Dtype F}.

Local Abbreviation any := (λ _, True).

(** The state in which [calculate_acrf_] enters its loops. *)
Ltac acrf_start Hl Hsh :=
  unfold run, calculate_acrf_;
  rewrite run_bind, (run_copy _ _ _ Hl);
  rewrite run_bind, (run_load _ _) by apply lookup_fresh;
  unfold unpack3; rewrite Hsh; rewrite bind_lift_return; cbv beta iota;
  rewrite (np_mean0_nonscalar _ _ _ Hsh), bind_lift_return.

(** Without lag-time integration the result is a closing formula over
    the number of frames; [P] is any property of these. *)
Lemma acrf_sliding_returns (P : ndarray F → Prop) (fuel : nat)
    (rad_array : loc) (order : Z) (s : machine F) (a : ndarray F)
    (n h w : nat) :
  (∀ c, accs_shaped [h; w] c →
        P (finish order (Qc_of_Z (Z.of_nat n)) c)) →
  heap s !! rad_array = Some a → shape a = [n; h; w] →
  2 ≤ order ≤ 4 → (n ≤ fuel)%nat →
  ∃ out, fst (run (calculate_acrf_ fuel rad_array order false) s)
         = Return (PyArr out)
         ∧ P out.
Proof.
  intros HP Hl Hsh Ho Hfuel. acrf_start Hl Hsh. cbn [negb]. cbv iota.
  match goal with |- ∃ out, fst (?m ?s2) = _ ∧ _ =>
    destruct (triple_returns (holds_stack (length (heap s)) [n; h; w]) m
                (λ v, ∃ out, v = PyArr out ∧ P out) s2)
      as (v & Hv & out & -> & Hout)
  end; [| by exists a; split; [apply lookup_fresh |] | by eauto].
  eapply triple_bind.
  - apply (stack_while _ _ _ _ _
             (λ st, Z.to_nat (Z.of_nat n - order - sl_t st))
             (λ st, 0 ≤ sl_t st ∧ accs_shaped [h; w] (sl_accs st))).
    + intros st _ Hc. apply Z.ltb_lt in Hc. cbv beta. lia.
    + intros st [Ht Hc'] Hc. apply Z.ltb_lt in Hc.
      eapply triple_bind; [apply stack_accumulate_in; (done || lia) |].
      intros c' Hc''. apply triple_ret. cbn [sl_t sl_accs].
      repeat split; (lia || apply Hc'').
    + by cbn.
    + cbn [sl_t]. lia.
  - intros st [[_ Hst] _]. apply triple_ret.
    eexists. split; [done |]. by apply HP.
Qed.

(** With it, and order 2, the result is the zero map or a closing
    formula over a binned count above the order. *)
Lemma acrf_binning2_returns (P : ndarray F → Prop) (fuel : nat)
    (rad_array : loc) (s : machine F) (a : ndarray F) (n h w : nat) :
  P (np_zeros [h; w]) →
  (∀ q c, (Qc_of_Z 2 < q)%Qc → accs_shaped [h; w] c → P (finish 2 q c)) →
  heap s !! rad_array = Some a → shape a = [n; h; w] → (n ≤ fuel)%nat →
  ∃ out, fst (run (calculate_acrf_ fuel rad_array 2 true) s)
         = Return (PyArr out)
         ∧ P out.
Proof.
  intros HP0 HP Hl Hsh Hfuel. acrf_start Hl Hsh. cbn [negb]. cbv iota.
  match goal with |- ∃ out, fst (?m ?s2) = _ ∧ _ =>
    destruct (triple_returns (holds_stack (length (heap s)) [n; h; w]) m
                (λ v, ∃ out, v = PyArr out ∧ P out) s2)
      as (v & Hv & out & -> & Hout)
  end; [| by exists a; split; [apply lookup_fresh |] | by eauto].
  eapply triple_bind.
  - apply (stack_while _ _ _ _ _
             (λ st, Z.to_nat (Qfloor (n_binned_time_points st)))
             (λ st, (n_binned_time_points st ≤ Qc_of_Z (Z.of_nat n))%Qc
                    ∧ accs_shaped [h; w] (bn_accs st)
                    ∧ P (bn_out st))).
    + intros st _ Hc. apply bool_decide_eq_true in Hc. cbv beta.
      pose proof (binned_floor_falls _ 2 ltac:(lia) Hc).
      assert (0 ≤ Qfloor (n_binned_time_points st / Qc_of_Z 2)%Qc); [| lia].
      rewrite <- (Qfloor_Z 0). apply Qfloor_resp_le.
      rewrite Qc_div_this. apply Qle_shift_div_l; [done |].
      unfold Qclt in Hc. change (this (Qc_of_Z 2)) with (inject_Z 2) in Hc.
      change (inject_Z 0) with 0%Q. change (inject_Z 2) with 2%Q in *. lra.
    + intros st (Hnb & Hsh' & Hout') Hc. apply bool_decide_eq_true in Hc.
      eapply triple_bind.
      * apply (stack_while _ _ _ _ _
                 (λ st', Z.to_nat (Qceiling (n_binned_time_points st
                                              - Qc_of_Z 2)%Qc - b_t st'))
                 (λ st', 0 ≤ b_t st' ∧ accs_shaped [h; w] (b_accs st'))).
        -- intros st' _ Hc'.
           apply bool_decide_eq_true, binning_turn in Hc'. cbv beta. lia.
        -- intros st' [Ht Hsh''] Hc'. apply bool_decide_eq_true in Hc'.
           pose proof (binning_index _ _ _ _ Hnb Hc') as Hidx.
           apply binning_turn in Hc'.
           eapply triple_bind; [apply stack_accumulate_in; (done || lia) |].
           intros c' Hc''.
           eapply triple_bind; [apply stack_assign_in; (done || lia) |].
           intros _ _.
           eapply triple_bind with (R1 := any).
           { destruct (Qc_ltb _ _) eqn:Hsrc; [| by apply triple_ret].
             apply bool_decide_eq_true in Hsrc.
             pose proof (binning_source _ _ _ Hnb Hsrc).
             apply stack_for; [| done]. intros [] _t H_t%elem_of_range2 _.
             eapply triple_bind; [apply stack_at_in; lia |]. intros x Hx.
             eapply triple_bind; [apply stack_at_in; lia |]. intros y _.
             apply stack_assign_in; [lia | done]. }
           intros _ _. apply triple_ret. cbn [b_t b_accs].
           repeat split; (lia || apply Hc'').
        -- cbn [b_t b_accs]. split; [done |].
           destruct Hsh' as (? & ? & ?). by repeat split.
        -- cbn [b_t].
           pose proof (binning_turns _ 2 _ ltac:(lia) Hnb). lia.
      * intros st' [[_ Hst'] _]. cbv zeta.
        destruct (decide (2 = 0)); [lia |].
        apply triple_ret. cbn [n_binned_time_points bn_accs bn_out].
        split; [split; [| split] |].
        -- apply binned_stays_below; (done || lia).
        -- done.
        -- by apply HP.
        -- pose proof (binned_floor_falls _ 2 ltac:(lia) Hc).
           assert (0 ≤ Qfloor (n_binned_time_points st / Qc_of_Z 2)%Qc); [| lia].
           rewrite <- (Qfloor_Z 0). apply Qfloor_resp_le.
           rewrite Qc_div_this. apply Qle_shift_div_l; [done |].
           unfold Qclt in Hc. change (this (Qc_of_Z 2)) with (inject_Z 2) in Hc.
           change (inject_Z 0) with 0%Q. change (inject_Z 2) with 2%Q in *. lra.
    + cbn [n_binned_time_points bn_accs bn_out]. split; [apply Qcle_refl |].
      by repeat split.
    + cbn [n_binned_time_points].
      change (this (Qc_of_Z (Z.of_nat n))) with (inject_Z (Z.of_nat n)).
      rewrite Qfloor_Z. lia.
  - intros st [(_ & _ & Hout) _]. apply triple_ret. by eexists.
Qed.

End CumulantOutcomes.


Section CumulantEntry.
Context {F : Type} `{Dtype F}.

Local Abbreviation any := (λ _, True).

Ltac acrf_start Hl Hsh :=
  unfold run, calculate_acrf_;
  rewrite run_bind, (run_copy _ _ _ Hl);
  rewrite run_bind, (run_load _ _) by apply lookup_fresh;
  unfold unpack3; rewrite Hsh; rewrite bind_lift_return; cbv beta iota;
  rewrite (np_mean0_nonscalar _ _ _ Hsh), bind_lift_return.

(** An order below -1 makes the loop bound exceed the number of frames:
    the read of [im[t+1]] fails at the last frame. *)
Lemma acrf_negative_order (fuel : nat) (rad_array : loc) (order : Z)
    (lag : bool) (s : machine F) (a : ndarray F) (n h w : nat) :
  heap s !! rad_array = Some a → shape a = [n; h; w] →
  order < 0 → (n < fuel)%nat →
  fst (run (calculate_acrf_ fuel rad_array order lag) s) = Raise IndexError.
Proof.
  intros Hl Hsh Ho Hfuel. acrf_start Hl Hsh.
  apply (triple_must_raise (holds_stack (length (heap s)) [n; h; w]));
    [| by exists a; split; [apply lookup_fresh |]].
  destruct lag; cbn [negb]; cbv iota.
  - eapply triple_bind with (R1 := λ _, False); [| by intros ? []].
    destruct fuel as [| fuel]; [lia |].
    rewrite while_step
      by (cbn [n_binned_time_points]; apply bool_decide_eq_true;
          rewrite <- Z2Qc_inj_lt; lia).
    eapply triple_bind; [apply stack_tick |]. intros _ _.
    eapply triple_bind with (R1 := λ _, False); [| by intros ? []].
    cbn [n_binned_time_points bn_accs tbin].
    eapply triple_bind with (R1 := λ _, False); [| by intros ? []].
    eapply triple_weaken;
      [apply (stack_while _ _ _ (λ e, e = IndexError) _
                (λ st', Z.to_nat (Z.of_nat n + 1 - b_t st'))
                (λ st', 0 ≤ b_t st' ≤ Z.of_nat n))
      | | done].
    + intros st' Ht _. cbv beta. lia.
    + intros st' Ht _.
      destruct (decide (b_t st' + 1 < Z.of_nat n)) as [Hin | Hout].
      * eapply triple_bind; [apply stack_accumulate_runs; lia |].
        intros c' _.
        eapply triple_bind; [apply stack_assign_in; (done || lia) |].
        intros _ _.
        rewrite range_nonpos by lia. cbn [for_].
        eapply triple_bind with (R1 := any);
          [destruct (Qc_ltb _ _); by apply triple_ret |].
        intros _ _. apply triple_ret. cbn [b_t]. lia.
      * eapply triple_bind with (R1 := λ _, False); [| by intros ? []].
        apply stack_accumulate_out; (done || lia).
    + cbn [b_t]. lia.
    + cbn [b_t]. lia.
    + intros st' [Ht Hc]. cbv beta in Hc.
      apply bool_decide_eq_false in Hc. apply Hc.
      rewrite <- Z2Qc_inj_sub, <- Z2Qc_inj_lt. lia.
  - eapply triple_bind with (R1 := λ _, False); [| by intros ? []].
    eapply triple_weaken;
      [apply (stack_while _ _ _ (λ e, e = IndexError) _
                (λ st, Z.to_nat (Z.of_nat n + 1 - sl_t st))
                (λ st, 0 ≤ sl_t st ≤ Z.of_nat n))
      | | done].
    + intros st Ht _. cbv beta. lia.
    + intros st Ht _.
      destruct (decide (sl_t st + 1 < Z.of_nat n)) as [Hin | Hout].
      * eapply triple_bind; [apply stack_accumulate_runs; lia |].
        intros c' _. apply triple_ret. cbn [sl_t]. lia.
      * eapply triple_bind with (R1 := λ _, False); [| by intros ? []].
        apply stack_accumulate_out; (done || lia).
    + cbn [sl_t]. lia.
    + cbn [sl_t]. lia.
    + intros st [Ht Hc]. cbv beta in Hc. apply Z.ltb_ge in Hc. lia.
Qed.

End CumulantEntry.


Section CumulantEntryPoint.
Context {F : Type} `{Dtype F}.

(** X1.  The cumulant orders 2, 3 and 4 without lag-time integration,
    and the order 2 with it, return an array of the frames' height and
    width for every three-dimensional stack, whatever its number of
    frames: no index leaves the stack and no assignment changes a shape. *)
Theorem cumulants_return_a_map (fuel : nat) (l : loc) (order : Z)
    (lag : bool) (s : machine F) (a : ndarray F) (n h w : nat) :
  heap s !! l = Some a → shape a = [n; h; w] →
  2 ≤ order ≤ 4 → (lag = true → order = 2) → (n ≤ fuel)%nat →
  ∃ out, fst (run (calculate_SRRF_temporal_correlations fuel l order lag) s)
         = Return (PyArr out)
         ∧ shape out = [h; w].
Proof.
  intros Hl Hsh Ho Hlag Hfuel.
  rewrite (srrf_cumulant _ _ _ _ _ a)
    by (done || lia || (unfold ndim; by rewrite Hsh)).
  destruct lag.
  - rewrite (Hlag eq_refl).
    apply (acrf_binning2_returns (λ out, shape out = [h; w]) fuel _ _ a n h w);
      [done | by intros; apply shape_finish | apply lookup_fresh | done..].
  - apply (acrf_sliding_returns (λ out, shape out = [h; w]) fuel _ order _
             a n h w);
      [by intros; apply shape_finish | apply lookup_fresh | done..].
Qed.

(** X2.  An order of -2 or less passes the assertion and is sent to the
    cumulant loops, whose bound [T - order] then exceeds the number of
    frames: with or without lag-time integration, every such call on a
    three-dimensional stack raises [IndexError]. *)
Theorem order_below_minus_1_raises (fuel : nat) (l : loc) (order : Z)
    (lag : bool) (s : machine F) (a : ndarray F) (n h w : nat) :
  heap s !! l = Some a → shape a = [n; h; w] →
  order ≤ -2 → (n < fuel)%nat →
  fst (run (calculate_SRRF_temporal_correlations fuel l order lag) s)
  = Raise IndexError.
Proof.
  intros Hl Hsh Ho Hfuel.
  rewrite (srrf_cumulant _ _ _ _ _ a)
    by (done || lia || (unfold ndim; by rewrite Hsh)).
  by apply (acrf_negative_order fuel _ order lag _ a n h w);
    [apply lookup_fresh | | lia |].
Qed.

(** X3.  With as much fuel as the stack has frames, every call of the
    two entry points with an order of at least -1 ends: it returns or it
    raises.  For the lag-time integration this rests on the binned count
    of time points, a rational, losing at least one from its integer
    part at every division by the order. *)
Theorem entry_points_end (fuel : nat) (im : loc) (order : Z) (lag : bool)
    (correlation : string) (s : machine F) :
  -1 ≤ order →
  (∀ a, heap s !! im = Some a → (len0 a ≤ fuel)%nat) →
  fst (run (calculate_SRRF_temporal_correlations fuel im order lag) s)
    ≠ Diverge
  ∧ fst (run (calculate_eSRRF_temporal_correlations im correlation) s)
    ≠ Diverge.
Proof. apply calculations_end. Qed.

(** X4.  Without lag-time integration CUMULANT2 is the magnitude of the
    sum of the lag-1 products of the centred frames over the windows
    [0 .. T-3], divided by [T]: of the [T - 1] lag-1 products of a stack
    the last one is left out. *)
Theorem cumulant2_closed_form (fuel : nat) (l : loc) (s : machine F)
    (a : ndarray F) (n h w : nat) :
  heap s !! l = Some a → shape a = [n; h; w] →
  (2 ≤ n)%nat → (n - 2 ≤ fuel)%nat →
  fst (run (calculate_SRRF_temporal_correlations fuel l 2 false) s)
  = Return (PyArr
      (ew1 (λ x, f_div x (f_of_Z (Z.of_nat n)))
         (ew1 f_absolute
            (foldl (λ acc j, ew2 f_add acc (lag1_product a j))
                   (np_zeros [h; w]) (seq 0 (n - 2)))))).
Proof.
  intros Hl Hsh Hn Hfuel. by apply (cumulant2_value fuel l s a n h w).
Qed.

(** X5.  TAC2 of a stack of [T ≥ 2] frames is the sum of all [T - 1]
    lag-1 products of the centred frames, divided by [T - 1]. *)
Theorem tac2_closed_form (l : loc) (s : machine F) (a : ndarray F)
    (n h w : nat) :
  heap s !! l = Some a → wf a → shape a = [S (S n); h; w] →
  fst (run (calculate_eSRRF_temporal_correlations l "TAC2") s)
  = Return (PyArr
      (ew1 (λ x, f_div x (f_of_Z (Z.of_nat (S n))))
         (foldl (ew2 f_add) (lag1_product a 0)
                (lag1_product a <$> seq 1 n)))).
Proof.
  intros Hl Hwf Hsh. by apply (tac2_value l s a n h w).
Qed.

End CumulantEntryPoint.

(** X1 at five 1x1 frames, order 2 with lag-time integration. *)
Lemma cumulants_return_a_map_witness :
  ∃ out, fst (run (calculate_SRRF_temporal_correlations 5 0%nat 2 true)
                  (caller (NdArray [5; 1; 1]%nat (pixels [1; 2; 3; 4; 5]))))
         = Return (PyArr out)
         ∧ shape out = [1; 1]%nat.
Proof.
  apply (cumulants_return_a_map (F := Qc) 5 0%nat 2 true
           (caller (NdArray [5; 1; 1]%nat (pixels [1; 2; 3; 4; 5])))
           (NdArray [5; 1; 1]%nat (pixels [1; 2; 3; 4; 5])) 5 1 1);
    [reflexivity | reflexivity | lia | reflexivity | lia].
Defined.

(** X2 at two 1x1 frames, order -3. *)
Lemma order_below_minus_1_raises_witness :
  fst (run (calculate_SRRF_temporal_correlations 3 0%nat (-3) true)
           (caller (NdArray [2; 1; 1]%nat (pixels [1; 2]))))
  = Raise IndexError.
Proof.
  apply (order_below_minus_1_raises (F := Qc) 3 0%nat (-3) true
           (caller (NdArray [2; 1; 1]%nat (pixels [1; 2])))
           (NdArray [2; 1; 1]%nat (pixels [1; 2])) 2 1 1);
    [reflexivity | reflexivity | lia | lia].
Defined.

(** X3 at seven 1x1 frames, order 3 with lag-time integration. *)
Lemma entry_points_end_witness :
  fst (run (calculate_SRRF_temporal_correlations 7 0%nat 3 true)
           (caller (NdArray [7; 1; 1]%nat (pixels [1; 2; 3; 4; 5; 6; 7]))))
    ≠ Diverge
  ∧ fst (run (calculate_eSRRF_temporal_correlations 0%nat "VAR")
             (caller (NdArray [7; 1; 1]%nat (pixels [1; 2; 3; 4; 5; 6; 7]))))
    ≠ Diverge.
Proof.
  apply (entry_points_end (F := Qc) 7 0%nat 3 true "VAR"
           (caller (NdArray [7; 1; 1]%nat (pixels [1; 2; 3; 4; 5; 6; 7])))).
  - lia.
  - intros a [= <-]. vm_compute. lia.
Defined.

(** X4 at four 1x1 frames. *)
Lemma cumulant2_closed_form_witness :
  fst (run (calculate_SRRF_temporal_correlations 2 0%nat 2 false)
           (caller (NdArray [4; 1; 1]%nat (pixels [1; 2; 4; 8]))))
  = Return (PyArr
      (ew1 (λ x, f_div x (f_of_Z (Z.of_nat 4)))
         (ew1 f_absolute
            (foldl (λ acc j, ew2 f_add acc
                       (lag1_product (NdArray [4; 1; 1]%nat (pixels [1; 2; 4; 8])) j))
                   (np_zeros [1; 1]%nat) (seq 0 (4 - 2)))))).
Proof.
  apply (cumulant2_closed_form (F := Qc) 2 0%nat
           (caller (NdArray [4; 1; 1]%nat (pixels [1; 2; 4; 8])))
           (NdArray [4; 1; 1]%nat (pixels [1; 2; 4; 8])) 4 1 1);
    [reflexivity | reflexivity | lia | lia].
Defined.

(** X5 at three 1x1 frames. *)
Lemma tac2_closed_form_witness :
  fst (run (calculate_eSRRF_temporal_correlations 0%nat "TAC2")
           (caller (NdArray [3; 1; 1]%nat (pixels [1; 2; 4]))))
  = Return (PyArr
      (ew1 (λ x, f_div x (f_of_Z (Z.of_nat 2)))
         (foldl (ew2 f_add)
                (lag1_product (NdArray [3; 1; 1]%nat (pixels [1; 2; 4])) 0)
                (lag1_product (NdArray [3; 1; 1]%nat (pixels [1; 2; 4]))
                   <$> seq 1 1)))).
Proof.
  apply (tac2_closed_form (F := Qc) 0%nat
           (caller (NdArray [3; 1; 1]%nat (pixels [1; 2; 4])))
           (NdArray [3; 1; 1]%nat (pixels [1; 2; 4])) 1 1 1);
    reflexivity.
Defined.

(** ** Lag-time integration reads past the last frame *)

Lemma triple_for_each {F S : Type} (I : machine F → Prop) (P : Z → Prop)
    (xs : list Z) (body : S → Z → M (machine F) S) (st : S)
    (E : exn → Prop) (D : Prop) :
  (∀ st x, x ∈ xs → triple I (body st x) (λ _, P x) E D) →
  triple I (for_ xs body st) (λ _, Forall P xs) E D.
Proof.
  revert st. induction xs as [| x xs IH]; intros st Hbody; simpl.
  - by apply triple_ret.
  - eapply triple_bind; [apply Hbody; left |]. intros st' Hx.
    eapply triple_weaken; [apply IH | |]; [| by constructor | done].
    intros st'' y Hy. apply Hbody. by right.
Qed.

Lemma elem_of_range (n x : Z) : 0 ≤ x < n → x ∈ range n.
Proof.
  intros Hx. unfold range, range2. apply list_elem_of_fmap.
  exists (Z.to_nat x). split; [lia |]. apply elem_of_seq. lia.
Qed.

Section LagOverrun.
Context {F : Type} `{Dtype F}.

Local Abbreviation any := (λ _, True).

Ltac acrf_start Hl Hsh :=
  unfold run, calculate_acrf_;
  rewrite run_bind, (run_copy _ _ _ Hl);
  rewrite run_bind, (run_load _ _) by apply lookup_fresh;
  unfold unpack3; rewrite Hsh; rewrite bind_lift_return; cbv beta iota;
  rewrite (np_mean0_nonscalar _ _ _ Hsh), bind_lift_return.

(** In the first round of the binning the window [t0] reads the frames
    [order * t0 .. order * t0 + order - 2]; if the first of them exists
    and the last does not, the read fails. *)
Lemma acrf_binning_overrun (fuel : nat) (rad_array : loc) (order t0 : Z)
    (s : machine F) (a : ndarray F) (n h w : nat) :
  heap s !! rad_array = Some a → shape a = [n; h; w] →
  3 ≤ order ≤ 4 → 0 ≤ t0 < Z.of_nat n - order →
  order * t0 < Z.of_nat n ≤ order * t0 + order - 2 →
  (Z.to_nat t0 < fuel)%nat →
  fst (run (calculate_acrf_ fuel rad_array order true) s) = Raise IndexError.
Proof.
  intros Hl Hsh Ho Ht0 Hn Hfuel. acrf_start Hl Hsh.
  apply (triple_must_raise (holds_stack (length (heap s)) [n; h; w]));
    [| by exists a; split; [apply lookup_fresh |]].
  cbn [negb]; cbv iota.
  eapply triple_bind with (R1 := λ _, False); [| by intros ? []].
  destruct fuel as [| fuel]; [lia |].
  rewrite while_step
    by (cbn [n_binned_time_points]; apply bool_decide_eq_true;
        rewrite <- Z2Qc_inj_lt; lia).
  eapply triple_bind; [apply stack_tick |]. intros _ _.
  eapply triple_bind with (R1 := λ _, False); [| by intros ? []].
  cbn [n_binned_time_points bn_accs tbin].
  eapply triple_bind with (R1 := λ _, False); [| by intros ? []].
  eapply triple_weaken;
    [apply (stack_while _ _ _ (λ e, e = IndexError) _
              (λ st', Z.to_nat (t0 + 1 - b_t st'))
              (λ st', 0 ≤ b_t st' ≤ t0))
    | | done].
  - intros st' Ht _. cbv beta. lia.
  - intros st' Ht _.
    eapply triple_bind; [apply stack_accumulate_runs; lia |].
    intros c' _.
    eapply triple_bind; [apply stack_assign_in; (done || lia) |].
    intros _ _.
    eapply triple_bind with (R1 := λ _, b_t st' < t0).
    + destruct (Qc_ltb _ _) eqn:Hsrc.
      * eapply triple_weaken;
          [apply (triple_for_each _
                    (λ _t, b_t st' * order + _t < Z.of_nat n))
          | | done].
        -- intros [] _t H_t%elem_of_range2.
           eapply triple_bind; [apply stack_at_in; lia |]. intros x Hx.
           eapply triple_bind; [by apply stack_at |]. intros y (_ & _ & Hy).
           eapply triple_weaken;
             [apply stack_assign_in; [lia | done] | done | done].
        -- intros u Hall.
           pose proof (proj1 (Forall_forall _ _) Hall (order - 2)
                         ltac:(apply elem_of_range; lia)) as Hlast.
           cbv beta in Hlast. nia.
      * apply triple_ret. apply bool_decide_eq_false in Hsrc.
        rewrite <- Z2Qc_inj_lt in Hsrc. nia.
    + intros _ Hlt. apply triple_ret. cbn [b_t]. lia.
  - cbn [b_t]. lia.
  - cbn [b_t]. lia.
  - intros st' [Ht Hc]. cbv beta in Hc.
    apply bool_decide_eq_false in Hc. apply Hc.
    rewrite <- Z2Qc_inj_sub, <- Z2Qc_inj_lt. lia.
Qed.

End LagOverrun.

Section PairwiseKind.
Context {F : Type} `{Dtype F}.

Lemma shape_py_iadd (p : pyval F) (x : ndarray F) (sh : list nat) :
  shape x = sh → p = PyInt 0 ∨ array_of_shape sh p →
  array_of_shape sh (py_iadd p x).
Proof.
  intros Hx [-> | (b & -> & Hb)]; eexists; (split; [done |]); done.
Qed.

(** The inner loop over [t1]: once [pps] is an array it stays one, and
    one turn makes it one. *)
Lemma pps_inner (l : loc) (s : machine F) (a : ndarray F) (n h w : nat)
    (r0 : ndarray F) (xs : list Z) (v : pps_vars) :
  heap s !! l = Some a → shape a = [n; h; w] → shape r0 = [h; w] →
  (∀ x, x ∈ xs → 0 ≤ x < Z.of_nat n) →
  pps v = PyInt 0 ∨ array_of_shape [h; w] (pps v) →
  ∃ v', for_ xs (λ v t1,
             r1 ← at_ l t1;
             mret (PpsVars (py_iadd (pps v) (ew2 f_mul r0 (clip0 r1)))
                           (counter v + 1))) v s = (Return v', s)
        ∧ (array_of_shape [h; w] (pps v) ∨ xs ≠ [] →
           array_of_shape [h; w] (pps v')).
Proof.
  intros Hl Hsh Hr0. revert v.
  induction xs as [| x xs IH]; intros v Hxs Hv.
  - exists v. split; [done |]. by intros [].
  - cbn [for_]. rewrite run_bind.
    rewrite run_bind, (at_inside _ _ a n [h; w]) by (done || apply Hxs; left).
    cbv zeta. unfold mret at 1, M_ret at 1.
    assert (Harr : array_of_shape [h; w]
              (py_iadd (pps v) (ew2 f_mul r0 (clip0 (frame a (Z.to_nat x))))))
      by by apply shape_py_iadd.
    destruct (IH (PpsVars
                    (py_iadd (pps v)
                       (ew2 f_mul r0 (clip0 (frame a (Z.to_nat x)))))
                    (counter v + 1))) as (v' & Hrun & Hkind);
      [intros y Hy; apply Hxs; by right | by right |].
    exists v'. split; [exact Hrun |]. intros _. apply Hkind. by left.
Qed.

Lemma pps_outer (l : loc) (s : machine F) (a : ndarray F) (n h w : nat)
    (xs : list Z) (v : pps_vars) :
  heap s !! l = Some a → shape a = [n; h; w] →
  (∀ x, x ∈ xs → 0 ≤ x < Z.of_nat n) →
  pps v = PyInt 0 ∨ array_of_shape [h; w] (pps v) →
  ∃ v', for_ xs (λ v t0,
         r0 ← at_ l t0;
         if Z.b2z (np_any (clip0 r0)) >? 0 then
           for_ (range2 t0 (Z.of_nat n)) (λ v t1,
             r1 ← at_ l t1;
             mret (PpsVars (py_iadd (pps v) (ew2 f_mul (clip0 r0) (clip0 r1)))
                           (counter v + 1))) v
         else mret (PpsVars (pps v) (counter v + (Z.of_nat n - t0)))) v s
        = (Return v', s)
      ∧ (pps v' = PyInt 0 ∨ array_of_shape [h; w] (pps v'))
      ∧ (array_of_shape [h; w] (pps v)
         ∨ (∃ x, x ∈ xs ∧ np_any (clip0 (frame a (Z.to_nat x))) = true) →
         array_of_shape [h; w] (pps v'))
      ∧ (pps v = PyInt 0 →
         (∀ x, x ∈ xs → np_any (clip0 (frame a (Z.to_nat x))) = false) →
         pps v' = PyInt 0).
Proof.
  intros Hl Hsh. revert v.
  induction xs as [| x xs IH]; intros v Hxs Hv.
  - exists v. repeat split; [done | | done].
    intros [| (x & Hx & _)]; [done | by apply elem_of_nil in Hx].
  - cbn [for_]. rewrite run_bind.
    rewrite run_bind, (at_inside _ _ a n [h; w]) by (done || apply Hxs; left).
    cbv zeta.
    pose proof (Hxs x ltac:(left)) as Hx.
    destruct (np_any (clip0 (frame a (Z.to_nat x)))) eqn:Hany;
      cbn [Z.b2z Z.gtb Z.compare]; cbv iota.
    + destruct (pps_inner l s a n h w (clip0 (frame a (Z.to_nat x)))
                  (range2 x (Z.of_nat n)) v) as (v1 & Hrun1 & Harr1);
        [done | done | by apply (shape_frame a n) | | done |].
      { intros y Hy%elem_of_range2. lia. }
      rewrite Hrun1.
      assert (Hv1 : array_of_shape [h; w] (pps v1)).
      { apply Harr1. right. unfold range2.
        replace (Z.to_nat (Z.of_nat n - x)) with (S (Z.to_nat (Z.of_nat n - x - 1)))
          by lia. done. }
      destruct (IH v1) as (v' & Hrun & Hkind & Harr & _);
        [intros y Hy; apply Hxs; by right | by right |].
      exists v'. repeat split; [done | done | |].
      * intros _. apply Harr. by left.
      * intros _ Hnone. specialize (Hnone x ltac:(left)). congruence.
    + unfold mret at 1, M_ret at 1.
      destruct (IH (PpsVars (pps v) (counter v + (Z.of_nat n - x))))
        as (v' & Hrun & Hkind & Harr & Hint);
        [intros y Hy; apply Hxs; by right | done |].
      exists v'. repeat split; [done | done | |].
      * intros [Hv' | (y & Hy & Hy')]; apply Harr; [by left |].
        right. exists y. split; [| done].
        apply elem_of_cons in Hy as [-> |]; [congruence | done].
      * intros Hv0 Hnone. apply Hint; [done |].
        intros y Hy. apply Hnone. by right.
Qed.

Lemma pps_kind (l : loc) (s : machine F) (a : ndarray F) (n h w : nat) :
  heap s !! l = Some a → shape a = [n; h; w] →
  ∃ v, calculate_pairwise_product_sum l s = (Return v, s)
       ∧ ((∃ k, (k < n)%nat ∧ np_any (clip0 (frame a k)) = true) →
          array_of_shape [h; w] v)
       ∧ ((∀ k, (k < n)%nat → np_any (clip0 (frame a k)) = false) →
          v = PyFloat 0%Qc).
Proof.
  intros Hl Hsh. unfold calculate_pairwise_product_sum.
  rewrite run_bind, (run_load _ _ _ Hl). unfold unpack3. rewrite Hsh.
  rewrite bind_lift_return. cbv beta iota zeta.
  destruct (pps_outer l s a n h w (range (Z.of_nat n)) (PpsVars (PyInt 0) 0))
    as (v' & Hrun & Hkind & Harr & Hint);
    [done | done | by intros x Hx%elem_of_range2 | by left |].
  rewrite run_bind, Hrun.
  destruct Hkind as [Hv' | (out & Hv' & Hout)]; rewrite Hv'.
  - unfold py_div_int. rewrite decide_False by lia.
    rewrite bind_lift_return. eexists. split; [done |]. split.
    + intros (k & Hk & Hany).
      destruct Harr as (out & Hv'' & _); [| congruence].
      right. exists (Z.of_nat k). split; [apply elem_of_range; lia |].
      by rewrite Nat2Z.id.
    + intros _. f_equal. rewrite Z2Qc_inj_0. apply Qcmult_0_l.
  - cbn [py_div_int]. rewrite bind_lift_return. eexists. split; [done |].
    split.
    + intros _. by eexists.
    + intros Hnone. rewrite Hint in Hv'; [done | done |].
      intros x Hx%elem_of_range2. apply Hnone. lia.
Qed.

End PairwiseKind.

(** ** The temporal correlations: further results *)

Section LagOverrunEntry.
Context {F : Type} `{Dtype F}.

(** X6.  Lag-time integration with order 3 or 4 reads past the last
    frame.  In the first round the window [t0] is rebuilt from the frames
    [order * t0 .. order * t0 + order - 2]; when the first of them exists
    and the last does not, the call raises [IndexError].  For order 3
    this is every stack of 7, 10, 13, ... frames, for order 4 every stack
    of 6, 9, 10, 13, 14, ... frames. *)
Theorem lag_integration_overruns (fuel : nat) (l : loc) (order t0 : Z)
    (s : machine F) (a : ndarray F) (n h w : nat) :
  heap s !! l = Some a → shape a = [n; h; w] →
  3 ≤ order ≤ 4 → 0 ≤ t0 < Z.of_nat n - order →
  order * t0 < Z.of_nat n ≤ order * t0 + order - 2 →
  (Z.to_nat t0 < fuel)%nat →
  fst (run (calculate_SRRF_temporal_correlations fuel l order true) s)
  = Raise IndexError.
Proof.
  intros Hl Hsh Ho Ht0 Hn Hfuel.
  rewrite (srrf_cumulant _ _ _ _ _ a)
    by (done || lia || (unfold ndim; by rewrite Hsh)).
  by apply (acrf_binning_overrun fuel _ order t0 _ a n h w);
    [apply lookup_fresh | ..].
Qed.

(** X7.  The pairwise product sum (order -1) of a three-dimensional
    stack is an array of the frames' height and width as soon as one
    frame has a pixel that is still non-zero after clipping at zero; if no
    frame has one, it is the Python float [0.0]. *)
Theorem pairwise_array_or_scalar (fuel : nat) (l : loc) (lag : bool)
    (s : machine F) (a : ndarray F) (n h w : nat) :
  heap s !! l = Some a → shape a = [n; h; w] →
  ((∃ k, (k < n)%nat ∧ np_any (clip0 (frame a k)) = true) →
   ∃ out, fst (run (calculate_SRRF_temporal_correlations fuel l (-1) lag) s)
          = Return (PyArr out)
          ∧ shape out = [h; w])
  ∧ ((∀ k, (k < n)%nat → np_any (clip0 (frame a k)) = false) →
     fst (run (calculate_SRRF_temporal_correlations fuel l (-1) lag) s)
     = Return (PyFloat 0%Qc)).
Proof.
  intros Hl Hsh. rewrite (srrf_entry _ _ _ _ _ _ Hl). cbv zeta.
  rewrite bool_decide_eq_true_2 by (unfold ndim; by rewrite Hsh).
  cbn [andb negb Z.leb Z.eqb Z.compare Pos.eqb]. cbv iota.
  destruct (pps_kind (length (heap s)) (Machine (heap s ++ [a]) (iters s))
              a n h w) as (v & -> & Harr & Hint);
    [apply lookup_fresh | done |].
  split.
  - intros Hk. destruct (Harr Hk) as (out & -> & Hout). by exists out.
  - intros Hk. by rewrite (Hint Hk).
Qed.

End LagOverrunEntry.

Section Magnitudes.

Lemma finish_nonnegative (order : Z) (q : Qc) (c : accs) :
  (0 < q)%Qc → nonnegative (finish order q c).
Proof.
  intros Hq.
  assert (Hall : ∀ x : ndarray Qc,
            nonnegative (ew1 (λ x, f_div x (f_of_Qc q)) (ew1 f_absolute x))).
  { intros x. unfold nonnegative, ew1. cbn [data].
    rewrite <- list_fmap_compose. apply Forall_fmap, Forall_forall.
    intros y _. cbn [compose f_div f_absolute f_of_Qc Qc_dtype].
    apply Qcmult_nonneg_nonneg; [| by apply Qclt_le_weak, Qcinv_pos].
    destruct (decide (y < 0)%Qc) as [Hy | Hy].
    - by apply Qclt_le_weak, Qcopp_le_compat in Hy.
    - by apply Qcnot_lt_le. }
  unfold finish. by destruct (order =? 3), (order =? 4).
Qed.

(** X10.  In exact arithmetic the cumulant maps are magnitudes: for
    every stack of at least one frame, no pixel of the cumulant of order
    2, 3 or 4 without lag-time integration, or of order 2 with it, is
    below zero. *)
Theorem cumulants_are_magnitudes (fuel : nat) (l : loc) (order : Z)
    (lag : bool) (s : machine Qc) (a : ndarray Qc) (n h w : nat) :
  heap s !! l = Some a → shape a = [S n; h; w] →
  2 ≤ order ≤ 4 → (lag = true → order = 2) → (S n ≤ fuel)%nat →
  ∃ out, fst (run (calculate_SRRF_temporal_correlations fuel l order lag) s)
         = Return (PyArr out)
         ∧ nonnegative out.
Proof.
  intros Hl Hsh Ho Hlag Hfuel.
  rewrite (srrf_cumulant _ _ _ _ _ a)
    by (done || lia || (unfold ndim; by rewrite Hsh)).
  destruct lag.
  - rewrite (Hlag eq_refl).
    apply (acrf_binning2_returns nonnegative fuel _ _ a (S n) h w);
      [| | apply lookup_fresh | done..].
    + apply Forall_replicate. done.
    + intros q c Hq _. apply finish_nonnegative.
      eapply Qclt_trans; [| exact Hq]. by rewrite <- Z2Qc_inj_0, <- Z2Qc_inj_lt.
  - apply (acrf_sliding_returns nonnegative fuel _ order _ a (S n) h w);
      [| apply lookup_fresh | done..].
    intros c _. apply finish_nonnegative.
    rewrite <- Z2Qc_inj_0, <- Z2Qc_inj_lt. lia.
Qed.

End Magnitudes.

(** X6 at seven 1x1 frames, order 3: the third window reads the frames
    6 and 7. *)
Lemma lag_integration_overruns_witness :
  fst (run (calculate_SRRF_temporal_correlations 3 0%nat 3 true)
           (caller (NdArray [7; 1; 1]%nat (pixels [1; 2; 3; 4; 5; 6; 7]))))
  = Raise IndexError.
Proof.
  apply (lag_integration_overruns (F := Qc) 3 0%nat 3 2
           (caller (NdArray [7; 1; 1]%nat (pixels [1; 2; 3; 4; 5; 6; 7])))
           (NdArray [7; 1; 1]%nat (pixels [1; 2; 3; 4; 5; 6; 7])) 7 1 1);
    [reflexivity | reflexivity | lia | lia | lia | lia].
Defined.

(** X7 at the 1x1 frames -1 and 2: the second frame is positive. *)
Lemma pairwise_array_or_scalar_witness :
  ∃ out, fst (run (calculate_SRRF_temporal_correlations 0 0%nat (-1) false)
                  (caller (NdArray [2; 1; 1]%nat (pixels [-1; 2]))))
         = Return (PyArr out)
         ∧ shape out = [1; 1]%nat.
Proof.
  apply (proj1 (pairwise_array_or_scalar (F := Qc) 0 0%nat false
                  (caller (NdArray [2; 1; 1]%nat (pixels [-1; 2])))
                  (NdArray [2; 1; 1]%nat (pixels [-1; 2])) 2 1 1
                  eq_refl eq_refl)).
  exists 1%nat. split; [lia | reflexivity].
Defined.

(** X10 at the 1x1 frames 1, 2, 4, order 2 with lag-time integration. *)
Lemma cumulants_are_magnitudes_witness :
  ∃ out, fst (run (calculate_SRRF_temporal_correlations 3 0%nat 2 true)
                  (caller (NdArray [3; 1; 1]%nat (pixels [1; 2; 4]))))
         = Return (PyArr out)
         ∧ nonnegative out.
Proof.
  apply (cumulants_are_magnitudes 3 0%nat 2 true
           (caller (NdArray [3; 1; 1]%nat (pixels [1; 2; 4])))
           (NdArray [3; 1; 1]%nat (pixels [1; 2; 4])) 2 1 1);
    [reflexivity | reflexivity | lia | reflexivity | lia].
Defined.

(** ** The peak locator: where the search starts and what stops it *)

Lemma lookup_range (n : nat) (i : nat) :
  (i < n)%nat → range (Z.of_nat n) !! i = Some (Z.of_nat i).
Proof.
  intros Hi. unfold range, range2.
  rewrite list_lookup_fmap, lookup_seq_lt by lia. done.
Qed.

Lemma length_range (n : nat) : length (range (Z.of_nat n)) = n.
Proof. unfold range, range2. rewrite length_fmap, length_seq. lia. Qed.

Lemma bind_singleton {A B} (f : A → B) (l : list A) :
  l ≫= (λ x, [f x]) = f <$> l.
Proof. induction l as [| a l IH]; [done |]. csimpl. by rewrite IH. Qed.

Lemma lookup_bind_rows {A B} (f : A → list B) (l : list A) (m i j : nat)
    (a : A) :
  (∀ a, length (f a) = m) → l !! i = Some a → (j < m)%nat →
  (l ≫= f) !! (i * m + j)%nat = f a !! j.
Proof.
  intros Hf. revert i. induction l as [| a0 l IH]; intros i Hi Hj; [done |].
  csimpl. destruct i as [| i].
  - simplify_eq/=. by rewrite lookup_app_l by by rewrite Hf.
  - cbn in Hi. rewrite lookup_app_r by (rewrite Hf; lia).
    rewrite Hf. replace (S i * m + j - m)%nat with (i * m + j)%nat by lia.
    by apply IH.
Qed.

Lemma lookup_grid_points (h w k : nat) :
  (k < h * w)%nat →
  grid_points h w !! k
  = Some (Z.of_nat k / Z.of_nat w, Z.of_nat k mod Z.of_nat w).
Proof.
  intros Hk. assert (Hw : (0 < w)%nat) by lia.
  pose proof (Nat.div_mod_eq k w) as Hdm.
  pose proof (Nat.mod_upper_bound k w ltac:(lia)) as Hmod.
  assert (Hdiv : (k / w < h)%nat) by (apply Nat.Div0.div_lt_upper_bound; lia).
  unfold grid_points.
  replace k with ((k / w) * w + k mod w)%nat at 1 by lia.
  rewrite (lookup_bind_rows _ _ w _ _ (Z.of_nat (k / w))).
  - rewrite bind_singleton, list_lookup_fmap, lookup_range by done.
    cbn. by rewrite Nat2Z.inj_div, Nat2Z.inj_mod.
  - intros y. by rewrite bind_singleton, length_fmap, length_range.
  - by apply lookup_range.
  - done.
Qed.

(** [argmax] over exact rationals: the running maximum and its index. *)
Lemma argmax_scan (xs pre : list Qc) (i : nat) (m : Qc) :
  pre !! i = Some m →
  (∀ y, y ∈ pre → (y ≤ m)%Qc) →
  (∀ j y, (j < i)%nat → pre !! j = Some y → (y < m)%Qc) →
  ∃ i' m' j',
    foldl (λ '(i, m, j) y, if f_ltb m y then (j, y, S j) else (i, m, S j))
          (i, m, length pre) xs = (i', m', j')
    ∧ (pre ++ xs) !! i' = Some m'
    ∧ (∀ y, y ∈ pre ++ xs → (y ≤ m')%Qc)
    ∧ (∀ j y, (j < i')%nat → (pre ++ xs) !! j = Some y → (y < m')%Qc).
Proof.
  revert pre i m. induction xs as [| y xs IH]; intros pre i m Hi Hmax Hfirst.
  - exists i, m, (length pre). rewrite app_nil_r. done.
  - cbn [foldl]. cbn [f_ltb Qc_dtype].
    replace (pre ++ y :: xs) with ((pre ++ [y]) ++ xs)
      by by rewrite <- app_assoc.
    replace (S (length pre)) with (length (pre ++ [y]))
      by (rewrite length_app; simpl; lia).
    destruct (decide (m < y)%Qc) as [Hlt | Hge].
    + apply IH.
      * by rewrite lookup_app_r, Nat.sub_diag by lia.
      * intros z [Hz | ->%list_elem_of_singleton]%elem_of_app;
          [| apply Qcle_refl].
        apply Qclt_le_weak. eapply Qcle_lt_trans; [by apply Hmax | done].
      * intros j z Hj Hz. rewrite lookup_app_l in Hz by done.
        eapply Qcle_lt_trans; [| exact Hlt].
        apply Hmax. by eapply list_elem_of_lookup_2.
    + apply IH.
      * rewrite lookup_app_l; [done |]. by eapply lookup_lt_Some.
      * intros z [Hz | ->%list_elem_of_singleton]%elem_of_app;
          [by apply Hmax | by apply Qcnot_lt_le].
      * intros j z Hj Hz. apply (Hfirst j z Hj).
        rewrite lookup_app_l in Hz; [done |].
        apply lookup_lt_Some in Hi. lia.
Qed.

Lemma argmax_first_largest (a : ndarray Qc) :
  data a ≠ [] →
  ∃ k m, Shift.argmax a = Return k
         ∧ data a !! k = Some m
         ∧ (∀ y, y ∈ data a → (y ≤ m)%Qc)
         ∧ (∀ j y, (j < k)%nat → data a !! j = Some y → (y < m)%Qc).
Proof.
  intros Hne. unfold Shift.argmax.
  destruct (data a) as [| x xs]; [done |].
  destruct (argmax_scan xs [x] 0 x) as (i' & m' & j' & Hrun & Hi & Hmax & Hfirst).
  - done.
  - by intros y ->%list_elem_of_singleton.
  - intros j y Hj. lia.
  - exists i', m'. cbn [length] in Hrun. rewrite Hrun. done.
Qed.

Section PeakSearch.
Context {F : Type} `{Dtype F} {interp : Type}.
Variable interp2d : ndarray F → ndarray F → ndarray F → outcome interp.
Variable griddata : list (Z * Z) → ndarray F → F * F → string → outcome F.
Variable nelder_mead : F * F → nat → Shift.search (F * F) F.

(** X11.  A surface with fewer than two axes is refused before scipy is
    reached: [slice_ccm.shape[1]] raises [IndexError], nothing has been
    built and no objective has been evaluated. *)
Theorem locate_max_needs_two_axes (surface : ndarray F) (t : Shift.trace) :
  (ndim surface < 2)%nat →
  run (Shift.locate_max interp2d griddata nelder_mead surface) t
  = (Raise IndexError, t).
Proof.
  intros Hnd. unfold run, Shift.locate_max, Shift.init, Shift.shape_at.
  unfold ndim in Hnd.
  destruct (shape surface) as [| n [| m sh]]; [done | done |].
  cbn [length] in Hnd. lia.
Qed.

Lemma bind_ext {St A B} (m : M St A) (k1 k2 : A → M St B) (s : St) :
  (∀ a s', k1 a s' = k2 a s') → (m ≫= k1) s = (m ≫= k2) s.
Proof.
  intros Hk. unfold mbind, M_bind.
  destruct (m s) as [[a | e |] s']; [apply Hk | done | done].
Qed.

Lemma bind_assoc {St A B C} (m : M St A) (k : A → M St B)
    (g : B → M St C) (s : St) :
  ((m ≫= k) ≫= g) s = (m ≫= λ a, k a ≫= g) s.
Proof.
  unfold mbind, M_bind. by destruct (m s) as [[a | e |] s'].
Qed.

Lemma search_ignores_success (b : bool) (objective : F * F → M Shift.trace F)
    (s : Shift.search (F * F) F) (t : Shift.trace) :
  (r ← Shift.run_search (with_success b s) objective; mret (Shift.res_x r)) t
  = (r ← Shift.run_search s objective; mret (Shift.res_x r)) t.
Proof.
  revert t. induction s as [x ok | x k IH]; intros t; [done |].
  cbn [with_success Shift.run_search].
  rewrite !bind_assoc. apply bind_ext. intros [] t1.
  apply bind_ext. intros v t2. apply IH.
Qed.

(** X12.  [get_max] never reads the success flag of the minimiser: with
    a minimiser whose every run reports the flag [b], converged or not,
    it returns the same point, raises the same exception and leaves the
    same trace. *)
Theorem success_flag_is_never_read (b : bool)
    (self : Shift.GetMaxOptimizer F interp) (t : Shift.trace) :
  run (Shift.get_max griddata
         (λ x0 maxiter, with_success b (nelder_mead x0 maxiter)) self) t
  = run (Shift.get_max griddata nelder_mead self) t.
Proof.
  unfold run, Shift.get_max, Shift.minimize.
  apply bind_ext. intros k t1. apply bind_ext. intros w t2.
  apply search_ignores_success.
Qed.

(** X13.  An exception of [interp2d] on the arguments the constructor
    gives it (the row indices as [x], the width itself, a 0-d array, as
    [y], the flattened surface as [z]) is the outcome of [locate_max];
    [get_max] does not run. *)
Theorem interp2d_failure_is_the_outcome (surface : ndarray F) (h w : nat)
    (e : exn) (t : Shift.trace) :
  shape surface = [h; w] →
  interp2d (NdArray [h] (f_of_Z <$> range (Z.of_nat h)))
           (NdArray [] [f_of_Z (Z.of_nat w)])
           (Shift.reshape1 surface (h * w))
  = Raise e →
  run (Shift.locate_max interp2d griddata nelder_mead surface) t
  = (Raise e, t).
Proof. apply constructor_error_propagates. Qed.

End PeakSearch.

Section PeakStart.
Context {interp : Type}.
Variable griddata : list (Z * Z) → ndarray Qc → Qc * Qc → string → outcome Qc.
Variable nelder_mead : Qc * Qc → nat → Shift.search (Qc * Qc) Qc.

(** X14.  The search starts on the peak.  For a surface of [h] rows
    and [w] columns with at least one pixel, over exact rationals, let
    [k] be the first index of a largest pixel of the flattened surface.
    The start point of the minimiser is row [k div w], column
    [k mod w]; this is the [k]-th point of the grid that the objective
    hands to [griddata], whose [k]-th value is that largest pixel. *)
Theorem search_starts_at_the_peak (self : Shift.GetMaxOptimizer Qc interp)
    (h w : nat) (t : Shift.trace) :
  wf (Shift.slice_ccm self) → shape (Shift.slice_ccm self) = [h; w] →
  (0 < h * w)%nat →
  ∃ (k : nat) (m : Qc),
    data (Shift.slice_ccm self) !! k = Some m
    ∧ (∀ v, v ∈ data (Shift.slice_ccm self) → (v ≤ m)%Qc)
    ∧ (∀ j v, (j < k)%nat → data (Shift.slice_ccm self) !! j = Some v →
              (v < m)%Qc)
    ∧ grid_points h w !! k
      = Some (Z.of_nat k / Z.of_nat w, Z.of_nat k mod Z.of_nat w)
    ∧ (∀ coords t',
         run (Shift.get_interpolated_px_value griddata self coords) t'
         = run (v ← lift (griddata (grid_points h w)
                            (Shift.reshape1 (Shift.slice_ccm self) (h * w))
                            coords "cubic");
                Shift.log Shift.GriddataBuilt;;
                mret (f_neg v)) t')
    ∧ run (Shift.get_max griddata nelder_mead self) t
      = run (minimizer ←
               Shift.minimize nelder_mead
                 (Shift.get_interpolated_px_value griddata self)
                 (Qc_of_Z (Z.of_nat k / Z.of_nat w),
                  Qc_of_Z (Z.of_nat k mod Z.of_nat w)) 1000;
             mret (Shift.res_x minimizer)) t.
Proof.
  intros Hwf Hsh Hpos.
  destruct (argmax_first_largest (Shift.slice_ccm self))
    as (k & m & Hk & Hm & Hmax & Hfirst).
  { unfold wf in Hwf. rewrite Hsh in Hwf. cbn in Hwf.
    intros Hnil. rewrite Hnil in Hwf. cbn in Hwf. lia. }
  exists k, m. repeat split; [done | done | done | | |].
  - apply lookup_grid_points. apply lookup_lt_Some in Hm.
    unfold wf in Hwf. rewrite Hsh in Hwf. cbn in Hwf. lia.
  - intros coords t'. unfold run, Shift.get_interpolated_px_value,
      Shift.shape_at.
    rewrite Hsh. cbn [lookup list_lookup]. done.
  - unfold run, Shift.get_max, Shift.shape_at. rewrite Hk, Hsh.
    cbn [lookup list_lookup]. done.
Qed.

End PeakStart.

(** X11 at a surface of one axis. *)
Lemma locate_max_needs_two_axes_witness :
  run (Shift.locate_max strict_interp2d any_griddata probe3
         (NdArray [3]%nat (pixels [1; 2; 3]))) []
  = (Raise IndexError, []).
Proof.
  apply (locate_max_needs_two_axes (F := Qc) strict_interp2d any_griddata probe3
           (NdArray [3]%nat (pixels [1; 2; 3])) []).
  cbv. lia.
Defined.

(** X13 with an [interp2d] that refuses a scalar [y] grid. *)
Lemma interp2d_failure_is_the_outcome_witness :
  run (Shift.locate_max strict_interp2d any_griddata probe3
         (NdArray [2; 2]%nat (pixels [1; 2; 3; 4]))) []
  = (Raise (ValueError
       "x and y must have equal lengths for non rectangular grid"), []).
Proof.
  apply (interp2d_failure_is_the_outcome (F := Qc) strict_interp2d
           any_griddata probe3 (NdArray [2; 2]%nat (pixels [1; 2; 3; 4]))
           2 2 _ []);
    reflexivity.
Defined.

(** X14 at the surface [[1, 4], [4, 2]]: the first largest pixel is at
    index 1, row 0 and column 1. *)
Lemma search_starts_at_the_peak_witness :
  ∃ (k : nat) (m : Qc),
    data (Shift.slice_ccm two_peaks) !! k = Some m
    ∧ (∀ v, v ∈ data (Shift.slice_ccm two_peaks) → (v ≤ m)%Qc)
    ∧ (∀ j v, (j < k)%nat → data (Shift.slice_ccm two_peaks) !! j = Some v →
              (v < m)%Qc)
    ∧ grid_points 2 2 !! k
      = Some (Z.of_nat k / Z.of_nat 2, Z.of_nat k mod Z.of_nat 2)
    ∧ (∀ coords t',
         run (Shift.get_interpolated_px_value any_griddata two_peaks coords) t'
         = run (v ← lift (any_griddata (grid_points 2 2)
                            (Shift.reshape1 (Shift.slice_ccm two_peaks) (2 * 2))
                            coords "cubic");
                Shift.log Shift.GriddataBuilt;;
                mret (f_neg v)) t')
    ∧ run (Shift.get_max any_griddata probe3 two_peaks) []
      = run (minimizer ←
               Shift.minimize probe3
                 (Shift.get_interpolated_px_value any_griddata two_peaks)
                 (Qc_of_Z (Z.of_nat k / Z.of_nat 2),
                  Qc_of_Z (Z.of_nat k mod Z.of_nat 2)) 1000;
             mret (Shift.res_x minimizer)) [].
Proof.
  apply (search_starts_at_the_peak any_griddata probe3 two_peaks 2 2 []);
    [reflexivity | reflexivity | lia].
Defined.

(** ** The channel-alignment estimator *)

Lemma not_elem_of_range (n x : Z) : ¬ (0 ≤ x < n) → x ∉ range n.
Proof. intros Hx Hin. by apply elem_of_range2 in Hin. Qed.

Lemma range2_split (a m b : Z) :
  a ≤ m ≤ b → range2 a b = range2 a m ++ range2 m b.
Proof.
  intros Hm. unfold range2.
  replace (Z.to_nat (b - a)) with (Z.to_nat (m - a) + Z.to_nat (b - m))%nat
    by lia.
  rewrite seq_app, fmap_app. f_equal. cbn [Nat.add].
  replace (seq (Z.to_nat (m - a)) (Z.to_nat (b - m)))
    with (Nat.add (Z.to_nat (m - a)) <$> seq 0 (Z.to_nat (b - m)))
    by (rewrite fmap_add_seq; f_equal; lia).
  rewrite <- list_fmap_compose.
  apply list_fmap_ext. intros _ k _. cbn. lia.
Qed.

Lemma range2_cons (a b : Z) : a < b → range2 a b = a :: range2 (a + 1) b.
Proof.
  intros Hab. unfold range2.
  replace (Z.to_nat (b - a)) with (S (Z.to_nat (b - (a + 1)))) by lia.
  cbn [seq fmap list_fmap]. f_equal; [lia |].
  rewrite <- fmap_S_seq, <- list_fmap_compose.
  apply list_fmap_ext. intros _ k _. cbn. lia.
Qed.

Lemma remove_first_middle (x : Z) (l1 l2 : list Z) :
  x ∉ l1 → Align.remove_first x (l1 ++ x :: l2) = l1 ++ l2.
Proof.
  induction l1 as [| y l1 IH]; intros Hx; cbn.
  - by rewrite decide_True.
  - apply not_elem_of_cons in Hx as [Hy Hx].
    rewrite decide_False by done. by rewrite IH.
Qed.

(** The channels that [estimate] aligns: those below the reference, then
    those above it. *)
Lemma channels_without_reference (n : nat) (x : Z) :
  0 ≤ x < Z.of_nat n →
  Align.list_remove x (range (Z.of_nat n))
  = Align.Ok (range2 0 x ++ range2 (x + 1) (Z.of_nat n)).
Proof.
  intros Hx. unfold Align.list_remove.
  rewrite decide_True by by apply elem_of_range.
  unfold range. rewrite (range2_split 0 x (Z.of_nat n)) by lia.
  rewrite (range2_cons x) by lia.
  rewrite remove_first_middle; [done |].
  intros Hin%elem_of_range2. lia.
Qed.

Lemma run_ok_inv {F A B} (m : Align.Run F A) (k : A → Align.Run F B)
    (s s' : Align.estimator F) (b : B) :
  (m ≫= k) s = (Align.Ok b, s') →
  ∃ a s1, m s = (Align.Ok a, s1) ∧ k a s1 = (Align.Ok b, s').
Proof.
  unfold mbind, Align.Run_bind. destruct (m s) as [[a | e] s1]; [eauto | done].
Qed.

Lemma lift_ok_inv {F A} (r : Align.res A) (s s' : Align.estimator F) (a : A) :
  Align.lift r s = (Align.Ok a, s') → r = Align.Ok a ∧ s' = s.
Proof. unfold Align.lift. by intros [= -> ->]. Qed.

Lemma run_lift_ok {F A B} (a : A) (k : A → Align.Run F B)
    (s : Align.estimator F) :
  (Align.lift (Align.Ok a) ≫= k) s = k a s.
Proof. done. Qed.

Lemma run_lift_err {F A B} (e : Align.error) (k : A → Align.Run F B)
    (s : Align.estimator F) :
  (Align.lift (Align.Err e) ≫= k) s = (Align.Err e, s).
Proof. done. Qed.

Section Estimator.
Context {F : Type} `{Dtype F}.
Variable calculate_translation_mask :
  ndarray F → ndarray F → Align.settings F → Align.res (ndarray F * ndarray F).
Variable imsave : string → Align.attr F → Align.res ().
Variable asksaveasfilename : string → Align.res string.
Variable align_channels :
  ndarray F → option (ndarray F) → Align.res (ndarray F).
Variable broadcast_to : ndarray F → list nat → Align.res (ndarray F).
Variable array_of_objects : Align.attr F → Align.res (ndarray F).

Local Abbreviation estimate :=
  (Align.estimate calculate_translation_mask imsave asksaveasfilename
     align_channels broadcast_to array_of_objects).

(** X15.  A reference channel that is not one of [0 .. n-1], negative
    ones included, makes [channels_to_align.remove] raise [ValueError]
    before anything else happens: the check written for this case is
    never reached, nothing is printed, no translation is computed and the
    estimator is as it was. *)
Theorem reference_outside_stack (img_stack : ndarray F) (ref_channel : Z)
    (cfg : Align.settings F) (save_masks : bool) (masks_path : option string)
    (save_ccms : bool) (ccms_path : option string) (apply : bool)
    (self : Align.estimator F) (n : nat) (sh : list nat) :
  shape img_stack = n :: sh →
  ¬ (0 ≤ ref_channel < Z.of_nat n) →
  estimate img_stack ref_channel cfg save_masks masks_path save_ccms
    ccms_path apply self
  = (Align.Err (Align.Py (ValueError Align.remove_msg)), self).
Proof.
  intros Hsh Href. unfold Align.estimate, Align.dim. rewrite Hsh.
  cbn [lookup list_lookup]. rewrite run_lift_ok. unfold Align.list_remove.
  by rewrite decide_False by by apply not_elem_of_range.
Qed.

(** X16.  The check compares the reference channel with
    [img_stack.shape[1]], the height of the images, not with the number
    of channels: a channel of the stack whose number exceeds the height
    is refused.  The message is printed, [None] is returned and nothing
    is computed. *)
Theorem guard_compares_with_height (img_stack : ndarray F) (ref_channel : Z)
    (cfg : Align.settings F) (save_masks : bool) (masks_path : option string)
    (save_ccms : bool) (ccms_path : option string) (apply : bool)
    (self : Align.estimator F) (n h : nat) (sh : list nat) :
  shape img_stack = n :: h :: sh →
  0 ≤ ref_channel < Z.of_nat n →
  Z.of_nat h < ref_channel →
  estimate img_stack ref_channel cfg save_masks masks_path save_ccms
    ccms_path apply self
  = (Align.Ok None,
     Align.Estimator (Align.translation_masks self) (Align.ccms self)
       (Align.log self ++ [Align.Printed Align.guard_msg])).
Proof.
  intros Hsh Href Hh. unfold Align.estimate, Align.dim. rewrite Hsh.
  cbn [lookup list_lookup]. rewrite run_lift_ok.
  rewrite channels_without_reference, !run_lift_ok by done.
  destruct (Z.gtb_spec ref_channel (Z.of_nat h)); [done | lia].
Qed.

(** X17.  A stack of one channel cannot be estimated: with the only
    possible reference, channel 0, no channel is left to align, the list
    of maps stays empty and [self.ccms[0]] raises [IndexError], after the
    masks have been set to zeros. *)
Theorem single_channel_stack_fails (img_stack : ndarray F)
    (cfg : Align.settings F) (save_masks : bool) (masks_path : option string)
    (save_ccms : bool) (ccms_path : option string) (apply : bool)
    (self : Align.estimator F) (h w : nat) (sh : list nat) :
  shape img_stack = 1%nat :: h :: w :: sh →
  estimate img_stack 0 cfg save_masks masks_path save_ccms ccms_path
    apply self
  = (Align.Err (Align.Py IndexError),
     Align.Estimator (Some (np_zeros [1; h; w * 2]%nat)) (Align.AList [])
       (Align.log self)).
Proof.
  intros Hsh. unfold Align.estimate, Align.dim. rewrite Hsh.
  cbn [lookup list_lookup]. rewrite run_lift_ok.
  rewrite (channels_without_reference 1 0), !run_lift_ok by lia.
  destruct (Z.gtb_spec 0 (Z.of_nat h)); [lia |]. done.
Qed.

Lemma quietly_bind {A B} (m : Align.Run F A) (k : A → Align.Run F B) :
  adds_quietly m → (∀ a, adds_quietly (k a)) → adds_quietly (m ≫= k).
Proof.
  intros Hm Hk s b s' (a & s1 & H1 & H2)%run_ok_inv.
  apply Hm in H1 as (r1 & E1 & Q1). apply Hk in H2 as (r2 & E2 & Q2).
  exists (r1 ++ r2). split; [by rewrite E2, E1, app_assoc |].
  by apply Forall_app.
Qed.

Lemma quietly_silent {A} (m : Align.Run F A) :
  (∀ s a s', m s = (Align.Ok a, s') → Align.log s' = Align.log s) →
  adds_quietly m.
Proof.
  intros Hm s a s' Hr. exists []. split; [| done].
  rewrite app_nil_r. by eapply Hm.
Qed.

Lemma quietly_lift {A} (r : Align.res A) :
  adds_quietly (Align.lift (F := F) r).
Proof. apply quietly_silent. by intros s a s' [_ ->]%lift_ok_inv. Qed.

Lemma quietly_ret {A} (a : A) : adds_quietly (mret (M := Align.Run F) a).
Proof. apply quietly_silent. by intros s b s' [= _ <-]. Qed.

Lemma quietly_record (e : Align.event F) :
  quiet e → adds_quietly (Align.record e).
Proof.
  intros He s a s' [= _ <-]. exists [e]. split; [done |]. by constructor.
Qed.

Lemma quietly_save_path (path : option string) (title : string) :
  adds_quietly (Align.save_path (F := F) asksaveasfilename path title).
Proof.
  destruct path as [p |]; cbn [Align.save_path]; [apply quietly_ret |].
  apply quietly_bind; [by apply quietly_record |]. intros _.
  apply quietly_bind; [apply quietly_lift |]. intros p. apply quietly_ret.
Qed.

(** What follows the loop puts no call of the translation estimate in
    the log. *)
Lemma quietly_after_loop (img_stack : ndarray F) (ref_channel : Z)
    (save_masks : bool) (masks_path : option string)
    (save_ccms : bool) (ccms_path : option string) (apply : bool) :
  adds_quietly
    (c ← Align.first_ccm;
     rows ← Align.lift (Align.py_len c);
     c ← Align.first_ccm;
     c0 ← Align.lift (Align.item c 0);
     cols ← Align.lift (Align.py_len c0);
     Align.insert_ccm ref_channel (np_zeros [rows; cols]);;
     v ← Align.get_ccms;
     a ← Align.lift (Align.np_array_of array_of_objects v);
     Align.set_ccms (Align.AArray a);;
     (if save_masks
      then Align.save_translation_mask imsave asksaveasfilename masks_path
      else mret ());;
     (if save_ccms
      then Align.save_ccms imsave asksaveasfilename ccms_path
      else mret ());;
     if apply then
       out ← Align.apply_elastic_transform align_channels img_stack;
       mret (Some out)
     else mret None).
Proof.
  assert (Hfirst : adds_quietly (Align.first_ccm (F := F))).
  { apply quietly_silent. intros s a s'. unfold Align.first_ccm.
    intros Hr. repeat case_match; by simplify_eq. }
  assert (Hget : ∀ {A} (f : Align.estimator F → A),
            adds_quietly (λ s, (Align.Ok (f s), s))).
  { intros A f. apply quietly_silent. by intros s b s' [= _ <-]. }
  apply quietly_bind; [done |]. intros c.
  apply quietly_bind; [apply quietly_lift |]. intros rows.
  apply quietly_bind; [done |]. intros c'.
  apply quietly_bind; [apply quietly_lift |]. intros c0.
  apply quietly_bind; [apply quietly_lift |]. intros cols.
  apply quietly_bind.
  { apply quietly_silent. intros s a s'. unfold Align.insert_ccm.
    intros Hr. repeat case_match; by simplify_eq. }
  intros _. apply quietly_bind; [apply (Hget _ Align.ccms) |].
  intros v. apply quietly_bind; [apply quietly_lift |]. intros a.
  apply quietly_bind.
  { apply quietly_silent. by intros s b s' [= _ <-]. }
  intros _. apply quietly_bind.
  { destruct save_masks; [| apply quietly_ret].
    apply quietly_bind; [apply quietly_save_path |]. intros p.
    apply quietly_bind; [apply (Hget _ Align.translation_masks) |].
    intros m. apply quietly_bind; [by apply quietly_record |].
    intros _. apply quietly_lift. }
  intros _. apply quietly_bind.
  { destruct save_ccms; [| apply quietly_ret].
    apply quietly_bind; [apply quietly_save_path |]. intros p.
    apply quietly_bind; [apply (Hget _ Align.ccms) |].
    intros m. apply quietly_bind; [by apply quietly_record |].
    intros _. apply quietly_lift. }
  intros _. destruct apply; [| apply quietly_ret].
  apply quietly_bind; [| intros out; apply quietly_ret].
  apply quietly_bind; [apply (Hget _ Align.translation_masks) |].
  intros m. apply quietly_bind; [by apply quietly_record |].
  intros _. apply quietly_lift.
Qed.

Lemma assign_mask_log (channel : Z) (mask : ndarray F)
    (s s' : Align.estimator F) :
  Align.assign_mask broadcast_to channel mask s = (Align.Ok (), s') →
  Align.log s' = Align.log s.
Proof.
  unfold Align.assign_mask. intros Hr.
  repeat case_match; by simplify_eq.
Qed.

Lemma append_ccm_log (ccm : ndarray F) (s s' : Align.estimator F) :
  Align.append_ccm ccm s = (Align.Ok (), s') → Align.log s' = Align.log s.
Proof.
  unfold Align.append_ccm. intros Hr. repeat case_match; by simplify_eq.
Qed.

(** The loop over the channels asks for one translation per channel, in
    the order of the list. *)
Lemma loop_log (img_stack : ndarray F) (ref_channel : Z)
    (cfg : Align.settings F) (n : nat) (sh : list nat) (xs : list Z) :
  shape img_stack = n :: sh → 0 ≤ ref_channel < Z.of_nat n →
  (∀ c, c ∈ xs → 0 ≤ c < Z.of_nat n) →
  ∀ s s',
    Align.for_each xs (λ channel,
      x ← Align.lift (Align.item img_stack channel);
      r ← Align.lift (Align.item img_stack ref_channel);
      '(translation_mask, ccm) ←
        Align.calculate_translation calculate_translation_mask x r cfg;
      Align.assign_mask broadcast_to channel translation_mask;;
      Align.append_ccm ccm) s = (Align.Ok (), s') →
    Align.log s'
    = Align.log s ++ (translation_of img_stack ref_channel cfg <$> xs).
Proof.
  intros Hsh Href. induction xs as [| c xs IH]; intros Hxs s s' Hr.
  - cbn in Hr. injection Hr as <-. by rewrite app_nil_r.
  - cbn [Align.for_each] in Hr.
    apply run_ok_inv in Hr as ([] & s1 & Hbody & Hrest).
    apply IH in Hrest; [| intros c' Hc'; apply Hxs; by right].
    rewrite Hrest. cbn [fmap list_fmap]. rewrite cons_middle, app_assoc.
    f_equal.
    clear Hrest IH. pose proof (Hxs c ltac:(left)) as Hc.
    unfold Align.item in Hbody. rewrite Hsh in Hbody.
    rewrite !py_index_inside, !run_lift_ok in Hbody by done.
    apply run_ok_inv in Hbody as ([mask ccm] & s2 & Hcall & Hbody).
    apply run_ok_inv in Hbody as ([] & s3 & Hassign & Happend).
    apply assign_mask_log in Hassign. apply append_ccm_log in Happend.
    rewrite Happend, Hassign.
    unfold Align.calculate_translation in Hcall.
    apply run_ok_inv in Hcall as ([] & s4 & Hrec & Hcall).
    apply lift_ok_inv in Hcall as [_ ->].
    unfold Align.record in Hrec. by injection Hrec as <-.
Qed.

(** X18.  When [estimate] returns on a stack of [n] channels whose
    reference passes the check, the translation estimate has been asked
    for once per channel other than the reference, in ascending order
    (those below the reference, then those above it), each time with that
    channel's image and the reference channel's image; the reference
    channel is never aligned with itself, and nothing that follows the
    loop asks for a translation. *)
Theorem translations_in_channel_order (img_stack : ndarray F)
    (ref_channel : Z) (cfg : Align.settings F) (save_masks : bool)
    (masks_path : option string) (save_ccms : bool)
    (ccms_path : option string) (apply : bool)
    (self self' : Align.estimator F) (out : option (ndarray F))
    (n h w : nat) (sh : list nat) :
  shape img_stack = n :: h :: w :: sh →
  ref_channel ≤ Z.of_nat h →
  estimate img_stack ref_channel cfg save_masks masks_path save_ccms
    ccms_path apply self
  = (Align.Ok out, self') →
  0 ≤ ref_channel < Z.of_nat n
  ∧ ∃ rest,
      Align.log self'
      = Align.log self
        ++ (translation_of img_stack ref_channel cfg
              <$> range2 0 ref_channel
                  ++ range2 (ref_channel + 1) (Z.of_nat n))
        ++ rest
      ∧ Forall quiet rest.
Proof.
  intros Hsh Hh Hr. unfold Align.estimate, Align.dim in Hr.
  rewrite Hsh in Hr. cbn [lookup list_lookup] in Hr.
  rewrite run_lift_ok in Hr.
  assert (Href : 0 ≤ ref_channel < Z.of_nat n).
  { unfold Align.list_remove in Hr.
    destruct (decide (ref_channel ∈ range (Z.of_nat n))) as [Hin | Hout];
      [by apply elem_of_range2 in Hin | done]. }
  split; [done |].
  rewrite channels_without_reference, !run_lift_ok in Hr by done.
  destruct (Z.gtb_spec ref_channel (Z.of_nat h)); [lia |].
  rewrite !run_lift_ok in Hr.
  apply run_ok_inv in Hr as ([] & s1 & [= <-] & Hr).
  apply run_ok_inv in Hr as ([] & s2 & [= <-] & Hr).
  apply run_ok_inv in Hr as ([] & s3 & Hloop & Hr).
  apply (loop_log img_stack ref_channel cfg n (h :: w :: sh)) in Hloop;
    [| done | done |].
  - apply quietly_after_loop in Hr as (rest & Hrest & Hquiet).
    exists rest. split; [| done]. by rewrite Hrest, Hloop, <- (assoc_L (++)).
  - intros c [Hc%elem_of_range2 | Hc%elem_of_range2]%elem_of_app; lia.
Qed.

End Estimator.

(** X15 at two 1x1 channels, with the reference channel 2. *)
Lemma reference_outside_stack_witness :
  Align.estimate any_translation any_imsave any_dialog any_corrector
    numpy_refuses no_object_array
    (NdArray [2; 1; 1]%nat (pixels [1; 2])) 2 subpixel
    true None false None false Align.init
  = (Align.Err (Align.Py (ValueError Align.remove_msg)), Align.init).
Proof.
  apply (reference_outside_stack (F := Qc) any_translation any_imsave
           any_dialog any_corrector numpy_refuses no_object_array
           (NdArray [2; 1; 1]%nat (pixels [1; 2])) 2 subpixel
           true None false None false Align.init 2 [1; 1]%nat);
    [reflexivity | lia].
Defined.

(** X16 at three 1x1 channels, with the reference channel 2: a channel
    of the stack, and above the height 1. *)
Lemma guard_compares_with_height_witness :
  Align.estimate any_translation any_imsave any_dialog any_corrector
    numpy_refuses no_object_array
    (NdArray [3; 1; 1]%nat (pixels [1; 2; 3])) 2 subpixel
    true None false None false Align.init
  = (Align.Ok None,
     Align.Estimator (Align.translation_masks Align.init)
       (Align.ccms Align.init)
       (Align.log Align.init ++ [Align.Printed Align.guard_msg])).
Proof.
  apply (guard_compares_with_height (F := Qc) any_translation any_imsave
           any_dialog any_corrector numpy_refuses no_object_array
           (NdArray [3; 1; 1]%nat (pixels [1; 2; 3])) 2 subpixel
           true None false None false Align.init 3 1 [1]%nat);
    [reflexivity | lia | lia].
Defined.

(** X17 at one 1x1 channel. *)
Lemma single_channel_stack_fails_witness :
  Align.estimate any_translation any_imsave any_dialog any_corrector
    numpy_refuses no_object_array
    (NdArray [1; 1; 1]%nat (pixels [7])) 0 subpixel
    true None false None false Align.init
  = (Align.Err (Align.Py IndexError),
     Align.Estimator (Some (np_zeros [1; 1; 1 * 2]%nat)) (Align.AList [])
       (Align.log Align.init)).
Proof.
  apply (single_channel_stack_fails (F := Qc) any_translation any_imsave
           any_dialog any_corrector numpy_refuses no_object_array
           (NdArray [1; 1; 1]%nat (pixels [7])) subpixel
           true None false None false Align.init 1 1 []).
  reflexivity.
Defined.

(** X18 at three 1x1 channels, with the reference channel 1: channel
    0, then channel 2. *)
Lemma translations_in_channel_order_witness :
  0 ≤ 1 < Z.of_nat 3
  ∧ ∃ rest,
      Align.log
        (Align.estimate any_translation any_imsave any_dialog any_corrector
           numpy_refuses no_object_array
           (NdArray [3; 1; 1]%nat (pixels [1; 2; 3])) 1 subpixel
           true None false None false Align.init).2
      = Align.log Align.init
        ++ (translation_of (NdArray [3; 1; 1]%nat (pixels [1; 2; 3])) 1
              subpixel
              <$> range2 0 1 ++ range2 (1 + 1) (Z.of_nat 3))
        ++ rest
      ∧ Forall quiet rest.
Proof.
  apply (translations_in_channel_order (F := Qc) any_translation any_imsave
           any_dialog any_corrector numpy_refuses no_object_array
           (NdArray [3; 1; 1]%nat (pixels [1; 2; 3])) 1 subpixel
           true None false None false Align.init _ None 3 1 1 []);
    [reflexivity | lia | reflexivity].
Defined.
